(** * generate_stubs.py: the stub generator over a model of the file system

    The script [scripts/generate_stubs.py] walks three tables of type names
    and writes, for every name, a Markdown stub below [PythonTypeGuide/].
    This file embeds the script and the library calls it makes
    ([os.path.dirname], [os.makedirs], [open(.., 'w')], [f.write],
    [pathlib.Path.__truediv__], [str.lower]) over a file system that is a
    finite map from resolved paths to nodes, and proves the properties of the
    specification about it, and then further properties of the script.

    Limits of the file-system model, all outside the script's own text:
    no symbolic links, no permissions, no size limits.  An I/O error that the
    tree itself does not explain (permission denied, disk full, ...) is
    injected by a schedule carried in the world: every [mkdir], [open] and
    [write] consumes one entry of the schedule and fails with [OSError] when
    the entry is [true].  Text written through a file object reaches the file
    at the call of [write]: buffering is not modelled, so a [write] that
    fails stands for the flush that fails, and in both cases [open] has
    already created or truncated the file.  [str.lower] is
    modelled on ASCII letters, which covers every name of the catalog. *)

From Stdlib Require Import String Ascii ZArith.
From stdpp Require Import gmap strings list fin_maps.


(** ** Python strings *)

Definition nl : string := String (ascii_of_nat 10) "".

(** [bool(s)] of a string: non-empty. *)
Definition truthy (s : string) : bool := bool_decide (s ≠ "").

(** [c * n] *)
Fixpoint str_repeat (c : ascii) (n : nat) : string :=
  match n with
  | 0 => ""
  | S n => String c (str_repeat c n)
  end.

(** [s[:n]] *)
Fixpoint str_take (n : nat) (s : string) : string :=
  match n, s with
  | S n, String c r => String c (str_take n r)
  | _, _ => ""
  end.

(** [s[n:]] *)
Fixpoint str_drop (n : nat) (s : string) : string :=
  match n, s with
  | S n, String _ r => str_drop n r
  | _, _ => s
  end.

(** [s.rfind(c)]: the highest index of [c] in [s], or [-1]. *)
Fixpoint rfind (c : ascii) (s : string) : Z :=
  match s with
  | "" => (-1)%Z
  | String a r =>
      let i := rfind c r in
      if (0 <=? i)%Z then (i + 1)%Z
      else if decide (a = c) then 0%Z else (-1)%Z
  end.

(** [s.rstrip(c)] *)
Fixpoint rstrip (c : ascii) (s : string) : string :=
  match s with
  | "" => ""
  | String a r =>
      match rstrip c r with
      | "" => if decide (a = c) then "" else String a ""
      | r' => String a r'
      end
  end.

(** [sep.join(l)] *)
Fixpoint join (sep : string) (l : list string) : string :=
  match l with
  | [] => ""
  | [x] => x
  | x :: r => x +:+ sep +:+ join sep r
  end.

(** [s.split(c)]: the pieces between the occurrences of [c]. *)
Fixpoint components (c : ascii) (s : string) : list string :=
  match s with
  | "" => [""]
  | String a r =>
      if decide (a = c) then "" :: components c r
      else match components c r with
           | x :: xs => String a x :: xs
           | [] => [String a ""]
           end
  end.

(** [c.lower()] and [s.lower()], on ASCII. *)
Definition lower_ascii (c : ascii) : ascii :=
  let n := nat_of_ascii c in
  if (65 <=? n) && (n <=? 90) then ascii_of_nat (n + 32) else c.

Fixpoint lower (s : string) : string :=
  match s with
  | "" => ""
  | String c r => String (lower_ascii c) (lower r)
  end.

(** ** posixpath *)

Module posixpath.

Definition sep : ascii := "/"%char.
Definition curdir : string := ".".
Definition pardir : string := "..".

(** [split(p)]:
<<
    i = p.rfind(sep) + 1
    head, tail = p[:i], p[i:]
    if head and head != sep*len(head):
        head = head.rstrip(sep)
    return head, tail
>> *)
Definition split (p : string) : string * string :=
  let i := Z.to_nat (rfind sep p + 1) in
  let head := str_take i p in
  let tail := str_drop i p in
  let head :=
    if truthy head && bool_decide (head ≠ str_repeat sep (String.length head))
    then rstrip sep head else head in
  (head, tail).

(** [dirname(p)]: the same computation, returning the head only. *)
Definition dirname (p : string) : string :=
  let i := Z.to_nat (rfind sep p + 1) in
  let head := str_take i p in
  if truthy head && bool_decide (head ≠ str_repeat sep (String.length head))
  then rstrip sep head else head.

End posixpath.

(** ** The file system *)

Inductive node : Type :=
  | Dir
  | File (content : string).

Global Instance node_eq_dec : EqDecision node.
Proof. solve_decision. Defined.

(** A world: the tree (keyed by the list of names from the root; the root is
    the empty list), the current working directory, and the schedule of
    injected I/O errors. *)
Record World : Type := mkWorld {
  tree : gmap (list string) node;
  cwd : list string;
  faults : list bool
}.

Definition set_tree (t : gmap (list string) node) (w : World) : World :=
  mkWorld t (cwd w) (faults w).

Definition set_faults (fs : list bool) (w : World) : World :=
  mkWorld (tree w) (cwd w) fs.

(** Python exceptions the script can meet.  All but [RecursionError] are
    subclasses of [OSError]; the constructor [OSError] stands for an error
    of any other errno. *)
Inductive exn : Type :=
  | FileNotFoundError
  | FileExistsError
  | NotADirectoryError
  | IsADirectoryError
  | OSError
  | RecursionError.

Global Instance exn_eq_dec : EqDecision exn.
Proof. solve_decision. Defined.

Definition is_OSError (e : exn) : bool :=
  match e with
  | RecursionError => false
  | _ => true
  end.

(** ** State and exceptions *)

Inductive result (A : Type) : Type :=
  | Ok (a : A)
  | Raise (e : exn).
Arguments Ok {A} a.
Arguments Raise {A} e.

Definition M (A : Type) : Type := World → World * result A.

Definition ret {A} (a : A) : M A := λ w, (w, Ok a).

Definition raise {A} (e : exn) : M A := λ w, (w, Raise e).

Definition bind {A B} (m : M A) (k : A → M B) : M B :=
  λ w, match m w with
       | (w', Ok a) => k a w'
       | (w', Raise e) => (w', Raise e)
       end.

(** [try: m  except: h] *)
Definition catch {A} (m : M A) (h : exn → M A) : M A :=
  λ w, match m w with
       | (w', Ok a) => (w', Ok a)
       | (w', Raise e) => h e w'
       end.

(** [try: m  finally: c] *)
Definition finally {A} (m : M A) (c : M unit) : M A :=
  λ w, match m w with
       | (w', r) =>
           match c w' with
           | (w'', Ok _) => (w'', r)
           | (w'', Raise e) => (w'', Raise e)
           end
       end.

Notation "'do' x <- m ; k" := (bind m (λ x, k))
  (at level 10, x name, m at level 100, k at level 200).

(** [for x in l: body(x)] *)
Fixpoint for_each {A} (l : list A) (body : A → M unit) : M unit :=
  match l with
  | [] => ret tt
  | x :: r => do _ <- body x; for_each r body
  end.

(** ** Path resolution and system calls *)

Module os.

Import posixpath.

(** Path lookup: follow the names [names] from the directory [cur].  Every name is looked
    up in a directory: the node reached so far must be one.  The result is
    the key of the last name, which need not exist. *)
Fixpoint namei (t : gmap (list string) node) (cur : list string)
    (names : list string) : exn + list string :=
  match names with
  | [] => inr cur
  | c :: rest =>
      match t !! cur with
      | None => inl FileNotFoundError
      | Some (File _) => inl NotADirectoryError
      | Some Dir =>
          if bool_decide (c = "") || bool_decide (c = curdir) then namei t cur rest
          else if bool_decide (c = pardir) then namei t (removelast cur) rest
          else namei t (cur ++ [c]) rest
      end
  end.

Definition isabs (p : string) : bool :=
  match p with
  | String c _ => bool_decide (c = sep)
  | "" => false
  end.

(** The empty path resolves to nothing (ENOENT). *)
Definition resolve (w : World) (p : string) : exn + list string :=
  if bool_decide (p = "") then inl FileNotFoundError
  else namei (tree w) (if isabs p then [] else cwd w) (components sep p).

Definition stat (w : World) (p : string) : option node :=
  match resolve w p with
  | inr k => tree w !! k
  | inl _ => None
  end.

(** [os.path.exists], [os.path.isdir] *)
Definition path_exists (p : string) : M bool :=
  λ w, (w, Ok (bool_decide (is_Some (stat w p)))).

Definition path_isdir (p : string) : M bool :=
  λ w, (w, Ok (bool_decide (stat w p = Some Dir))).

(** One system call that can fail for a reason outside the tree. *)
Definition syscall : M unit :=
  λ w, match faults w with
       | [] => (w, Ok tt)
       | b :: rest => (set_faults rest w, if b : bool then Raise OSError else Ok tt)
       end.

(** mkdir(2) ignores trailing separators of a name that has other
    characters. *)
Definition strip_trailing (p : string) : string :=
  if bool_decide (p = str_repeat sep (String.length p)) then p else rstrip sep p.

(** [os.mkdir(p)] *)
Definition mkdir (p : string) : M unit :=
  do _ <- syscall;
  λ w, match resolve w (strip_trailing p) with
       | inl e => (w, Raise e)
       | inr k =>
           match tree w !! k with
           | Some _ => (w, Raise FileExistsError)
           | None => (set_tree (<[k := Dir]> (tree w)) w, Ok tt)
           end
       end.

(** [open(p, 'w')]: create or truncate; the file object is the key of the
    file. *)
Definition open_w (p : string) : M (list string) :=
  do _ <- syscall;
  λ w, match resolve w p with
       | inl e => (w, Raise e)
       | inr k =>
           match tree w !! k with
           | Some Dir => (w, Raise IsADirectoryError)
           | _ => (set_tree (<[k := File ""]> (tree w)) w, Ok k)
           end
       end.

(** [f.write(s)] *)
Definition write (f : list string) (s : string) : M unit :=
  do _ <- syscall;
  λ w, match tree w !! f with
       | Some (File c) => (set_tree (<[f := File (c +:+ s)]> (tree w)) w, Ok tt)
       | _ => (w, Raise OSError)
       end.

(** [f.close()]: nothing is buffered, nothing to flush. *)
Definition close (f : list string) : M unit := ret tt.

(** [with open(p, 'w') as f: body(f)] *)
Definition with_open_w {A} (p : string) (body : list string → M A) : M A :=
  do f <- open_w p; finally (body f) (close f).

(** [os.makedirs(name, exist_ok=exist_ok)]:
<<
    head, tail = path.split(name)
    if not tail:
        head, tail = path.split(head)
    if head and tail and not path.exists(head):
        try:
            makedirs(head, exist_ok=exist_ok)
        except FileExistsError:
            pass
        if tail == curdir:
            return
    try:
        mkdir(name, mode)
    except OSError:
        if not exist_ok or not path.isdir(name):
            raise
>>
    The recursion is on the head, a shorter string; [fuel] bounds it. *)
Fixpoint makedirs_rec (fuel : nat) (name : string) (exist_ok : bool) : M unit :=
  match fuel with
  | 0 => raise RecursionError
  | S fuel =>
      let '(head, tail) := split name in
      let '(head, tail) := if negb (truthy tail) then split head else (head, tail) in
      do finished <-
        (if truthy head && truthy tail then
           do found <- path_exists head;
           if negb found then
             do _ <- catch (makedirs_rec fuel head exist_ok)
                           (λ e, match e with
                                 | FileExistsError => ret tt
                                 | _ => raise e
                                 end);
             ret (bool_decide (tail = curdir))
           else ret false
         else ret false);
      if finished : bool then ret tt
      else
        catch (mkdir name)
              (λ e, if is_OSError e then
                      do d <- path_isdir name;
                      if negb exist_ok || negb d then raise e else ret tt
                    else raise e)
  end.

Definition makedirs (name : string) (exist_ok : bool) : M unit :=
  makedirs_rec (S (String.length name)) name exist_ok.

End os.

(** ** The script *)

(** The document [create_stub_file] writes for [title]. *)
Definition template (title : string) : string :=
  "# " +:+ title +:+ nl +:+ nl +:+
  "## Overview" +:+ nl +:+ nl +:+
  "## Usage" +:+ nl +:+ nl +:+
  "## Examples" +:+ nl +:+ nl +:+
  "## Related Types" +:+ nl +:+ nl.

Definition create_stub_file (path title : string) : M unit :=
  do _ <- os.makedirs (posixpath.dirname path) true;
  os.with_open_w path (λ f,
    do _ <- os.write f ("# " +:+ title +:+ nl +:+ nl);
    do _ <- os.write f ("## Overview" +:+ nl +:+ nl);
    do _ <- os.write f ("## Usage" +:+ nl +:+ nl);
    do _ <- os.write f ("## Examples" +:+ nl +:+ nl);
    os.write f ("## Related Types" +:+ nl +:+ nl)).

(** ** pathlib *)

Module pathlib.

(** A pure POSIX path: whether it is anchored at the root, and its parts.
    Parsing drops empty and [.] segments. *)
Record PurePath : Type := mkPath { anchored : bool; parts : list string }.

Definition parse_parts (s : string) : list string :=
  filter (λ c, c ≠ "" ∧ c ≠ ".") (components posixpath.sep s).

Definition Path (s : string) : PurePath :=
  mkPath (os.isabs s) (parse_parts s).

(** [p / s]: an absolute right operand replaces the left one. *)
Definition truediv (p : PurePath) (s : string) : PurePath :=
  if os.isabs s then Path s
  else mkPath (anchored p) (parts p ++ parse_parts s).

(** [str(p)] *)
Definition str (p : PurePath) : string :=
  if anchored p then "/" +:+ join "/" (parts p)
  else match parts p with
       | [] => "."
       | _ => join "/" (parts p)
       end.

End pathlib.

Infix "//" := pathlib.truediv (at level 40, left associativity).

Definition base_dir : pathlib.PurePath := pathlib.Path "PythonTypeGuide".

(** The tables of [main] are dict literals with distinct keys; [.items()]
    yields their pairs in the order they are written, so each is a list of
    pairs.

    Level 1: foundational and frequent use. *)
Definition level1_types : list (string * list string) :=
  [ ("primitive", ["int"; "float"; "str"; "bool"; "bytes"; "complex"; "None"]);
    ("collections", ["List"; "Dict"; "Tuple"; "Set"; "FrozenSet"]);
    ("utilities",
      ["Optional"; "Union"; "Any"; "Literal"; "Callable";
       "Annotated"; "Final"; "ClassVar"; "Type"]);
    ("abcs",
      ["Iterable"; "Iterator"; "Sequence"; "Mapping";
       "MutableMapping"; "Sized"; "Container"; "Collection"]) ].

(** Level 2: intermediate use. *)
Definition level2_types : list (string * list string) :=
  [ ("structured", ["TypedDict"; "NamedTuple"; "TypeAlias"; "LiteralString"]);
    ("abcs",
      ["ContextManager"; "AsyncContextManager"; "Reversible";
       "Hashable"; "SupportsInt"]);
    ("async",
      ["Awaitable"; "Coroutine"; "AsyncIterator";
       "AsyncIterable"; "Generator"]);
    ("callable", ["Callable_Args"; "TypeGuard"; "NewType"]);
    ("tools",
      ["overload"; "cast"; "reveal_type"; "assert_type";
       "assert_never"]) ].

(** Level 3: advanced and metaprogramming. *)
Definition level3_types : list (string * list string) :=
  [ ("generics",
      ["Generic"; "TypeVar"; "TypeVarTuple"; "ParamSpec";
       "Concatenate"; "Unpack"; "Self"]);
    ("protocols",
      ["Protocol"; "runtime_checkable"; "is_protocol";
       "get_protocol_members"]);
    ("internals",
      ["ForwardRef"; "get_args"; "get_origin"; "get_type_hints";
       "TypeAliasType"; "NoReturn"; "Never"; "NoDefault"]);
    ("domain", ["BinaryIO"; "IO"; "TextIO"; "Match"; "Pattern"; "AnyStr"]);
    ("decorators",
      ["dataclass_transform"; "final"; "override";
       "no_type_check"; "no_type_check_decorator";
       "ReadOnly"; "Required"; "NotRequired"]) ].

(** The body of the three loops of [main], for the level directory [level]. *)
Definition stub_path (level category type_name : string) : string :=
  pathlib.str (base_dir // level // category // (lower type_name +:+ ".md")).

Definition main : M unit :=
  do _ <- for_each level1_types (λ '(category, types),
    for_each types (λ type_name,
      create_stub_file (stub_path "level1" category type_name) type_name));
  do _ <- for_each level2_types (λ '(category, types),
    for_each types (λ type_name,
      create_stub_file (stub_path "level2" category type_name) type_name));
  for_each level3_types (λ '(category, types),
    for_each types (λ type_name,
      create_stub_file (stub_path "level3" category type_name) type_name)).


(** The empty target: a root directory and nothing else, no injected error. *)
Definition empty_world : World := mkWorld {[ [] := Dir ]} [] [].

(** [open(p).read()], as a function of the world. *)
Definition read_file (w : World) (p : string) : option string :=
  match os.stat w p with
  | Some (File c) => Some c
  | _ => None
  end.

(** * Notions the statements and the proofs use *)

(** No separator in [s]. *)
Fixpoint sep_free (s : string) : bool :=
  match s with
  | "" => true
  | String a r => negb (bool_decide (a = posixpath.sep)) && sep_free r
  end.

(** A plain name: what a directory entry can be called. *)
Definition plain (s : string) : bool :=
  sep_free s && truthy s && negb (bool_decide (s = ".")) && negb (bool_decide (s = "..")).

(** The same tree and working directory; the schedules may differ. *)
Definition same_fs (w w' : World) : Prop := tree w' = tree w ∧ cwd w' = cwd w.

(** The tree only grows by directories, at keys that satisfy [P]. *)
Definition grows_at (P : list string → Prop) (t t' : gmap (list string) node) : Prop :=
  ∀ k, t' !! k = t !! k ∨ (t !! k = None ∧ t' !! k = Some Dir ∧ P k).

(** The three parts of the body of [makedirs]: the choice of head and tail,
    the recursion on the head, and the [mkdir] of the name
    ([makedirs_rec_S]). *)
Definition makedirs_split (name : string) : string * string :=
  let '(head, tail) := posixpath.split name in
  if negb (truthy tail) then posixpath.split head else (head, tail).

Definition makedirs_head (fuel : nat) (head tail : string) (exist_ok : bool) : M bool :=
  if truthy head && truthy tail then
    do found <- os.path_exists head;
    if negb found then
      do _ <- catch (os.makedirs_rec fuel head exist_ok)
                    (λ e, match e with
                          | FileExistsError => ret tt
                          | _ => raise e
                          end);
      ret (bool_decide (tail = posixpath.curdir))
    else ret false
  else ret false.

Definition makedirs_leaf (name : string) (exist_ok : bool) : M unit :=
  catch (os.mkdir name)
        (λ e, if is_OSError e then
                do d <- os.path_isdir name;
                if negb exist_ok || negb d then raise e else ret tt
              else raise e).

(** A non-empty list of plain names. *)
Definition plain_path (ds : list string) : Prop :=
  Forall (λ d, plain d = true) ds ∧ ds ≠ [].

(** The keys of the directories above or at [ds], from the directory [c]. *)
Definition chain (c ds : list string) (k : list string) : Prop :=
  ∃ i, 0 < i ≤ length ds ∧ k = c ++ take i ds.

(** Nothing, or a directory. *)
Definition dir_or_absent (o : option node) : Prop := o = None ∨ o = Some Dir.

(** [s.startswith(c)] *)
Definition str_prefix (c s : string) : Prop := ∃ rest, s = c +:+ rest.

(** An entry: the directories of its path, its file name and its title. *)
Record entry : Type := mkEntry {
  e_dirs : list string;
  e_file : string;
  e_title : string
}.

(** The path of an entry, and when its names are plain. *)
Definition entry_path (e : entry) : string := join "/" (e_dirs e ++ [e_file e]).

Definition entry_ok (e : entry) : Prop := plain_path (e_dirs e) ∧ plain (e_file e) = true.

(** The key of the file of [e], from the directory [c]. *)
Definition leaf (c : list string) (e : entry) : list string := c ++ e_dirs e ++ [e_file e].

(** The loop of [main] over a list of entries ([main_run]). *)
Definition run (es : list entry) : M unit :=
  for_each es (λ e, create_stub_file (entry_path e) (e_title e)).

(** What a run may have done to the tree: nothing at [k], or a directory of
    some entry made at [k], or [k] is the file of some entry and holds a
    prefix of its document. *)
Definition touched (c : list string) (es : list entry)
    (t t' : gmap (list string) node) : Prop :=
  ∀ k, t' !! k = t !! k ∨
       (t !! k = None ∧ t' !! k = Some Dir ∧ ∃ e, e ∈ es ∧ chain c (e_dirs e) k) ∨
       (∃ e s, e ∈ es ∧ k = leaf c e ∧ t' !! k = Some (File s) ∧
               str_prefix s (template (e_title e)) ∧ t !! k ≠ Some Dir).

(** The paths of [es], as keys below the working directory. *)
Definition keys (es : list entry) : list (list string) :=
  (λ e, e_dirs e ++ [e_file e]) <$> es.

(** No file of the entries lies on the way to another one. *)
Definition separated (es : list entry) : Prop :=
  ∀ e e' i, e ∈ es → e' ∈ es → take i (e_dirs e') ≠ e_dirs e ++ [e_file e].

(** Nothing in the tree stands in the way of the entries: the working
    directory exists, what exists of their directories are directories, and
    no directory sits where a file goes. *)
Definition compat (c : list string) (es : list entry) (t : gmap (list string) node) : Prop :=
  t !! c = Some Dir ∧
  ∀ e, e ∈ es →
    (∀ i, 0 < i ≤ length (e_dirs e) → dir_or_absent (t !! (c ++ take i (e_dirs e)))) ∧
    t !! leaf c e ≠ Some Dir.

(** The triples (level, category, name) of a table, in the order of the
    loops. *)
Definition catalog_of (level : nat) (types : list (string * list string))
    : list (nat * string * string) :=
  (λ '(c, n), (level, c, n)) <$> (types ≫= λ '(c, ns), pair c <$> ns).

Definition catalog : list (nat * string * string) :=
  catalog_of 1 level1_types ++ catalog_of 2 level2_types ++ catalog_of 3 level3_types.

(** [level{l}], for a one-digit level. *)
Definition level_dir (l : nat) : string := "level" +:+ String (ascii_of_nat (48 + l)) "".

(** The path the specification gives for an entry of the catalog. *)
Definition catalog_path (x : nat * string * string) : string :=
  let '(l, c, n) := x in
  "PythonTypeGuide/" +:+ level_dir l +:+ "/" +:+ c +:+ "/" +:+ lower n +:+ ".md".

Definition entry_of (x : nat * string * string) : entry :=
  let '(l, c, n) := x in
  mkEntry ["PythonTypeGuide"; level_dir l; c] (lower n +:+ ".md") n.

Definition main_entries : list entry := entry_of <$> catalog.

(** [entry_ok], as a test. *)
Definition entry_okb (e : entry) : bool :=
  forallb plain (e_dirs e) && negb (bool_decide (e_dirs e = [])) && plain (e_file e).

(** A tree in which [docs] exists and [docs/api] does not. *)
Definition docs_world : World :=
  mkWorld (<[ ["docs"] := Dir ]> {[ [] := Dir ]}) [] [].

(** The target is empty: the working directory exists and holds nothing. *)
Definition empty_target (w : World) : Prop :=
  tree w !! cwd w = Some Dir ∧ ∀ k, k ≠ [] → tree w !! (cwd w ++ k) = None.

(** Two trees with a file at [k], equal everywhere else. *)
Definition same_but (k : list string) (t1 t2 : gmap (list string) node) : Prop :=
  (∀ key, key ≠ k → t1 !! key = t2 !! key) ∧
  ∃ c1 c2, t1 !! k = Some (File c1) ∧ t2 !! k = Some (File c2).

(** Two worlds that differ at most in the contents of the file at [k]. *)
Definition sim (k : list string) (w1 w2 : World) : Prop :=
  cwd w1 = cwd w2 ∧ faults w1 = faults w2 ∧ same_but k (tree w1) (tree w2).

(** [m] does not look at the contents of the file at [k]. *)
Definition blind {A} (k : list string) (m : M A) : Prop :=
  ∀ w1 w2 w1' r, sim k w1 w2 → m w1 = (w1', r) →
    ∃ w2', m w2 = (w2', r) ∧ sim k w1' w2'.

(** A world in which [docs/Int.md] holds some text. *)
Definition stale_world : World :=
  mkWorld (<[ ["docs"; "Int.md"] := File "stale text" ]>
             (<[ ["docs"] := Dir ]> {[ [] := Dir ]})) [] [].



(** An empty target in which the fifth system call fails: the three [mkdir]
    and the [open] of the first entry succeed, its first [write] does not
    (a full disk). *)
Definition disk_full_world : World :=
  mkWorld {[ [] := Dir ]} [] [false; false; false; false; true].

(** The directories [main] makes for the level [l]: the level directory and
    one directory for each category of its table. *)
Definition level_dirs (l : nat) (types : list (string * list string)) : list (list string) :=
  ["PythonTypeGuide"; level_dir l]
  :: ((λ ct, ["PythonTypeGuide"; level_dir l; ct.1]) <$> types).

(** The directories of [main], below the working directory. *)
Definition main_dirs : list (list string) :=
  ["PythonTypeGuide"]
  :: level_dirs 1 level1_types ++ level_dirs 2 level2_types ++ level_dirs 3 level3_types.

(** The directories on the way to the first file [main] writes. *)
Definition first_dirs : list string := ["PythonTypeGuide"; "level1"; "primitive"].

(** A working directory in which [PythonTypeGuide] is a regular file. *)
Definition occupied_world : World :=
  mkWorld (<[ ["PythonTypeGuide"] := File "notes" ]> {[ [] := Dir ]}) [] [].

(** * Lemmas *)

(** ** Strings: the facts the path functions need *)

Lemma app_nil_l' (s : string) : "" +:+ s = s.
Proof. reflexivity. Qed.

Lemma app_cons (a : ascii) (s t : string) : String a s +:+ t = String a (s +:+ t).
Proof. reflexivity. Qed.

Lemma app_nil_r' (s : string) : s +:+ "" = s.
Proof. induction s as [|a s IH]; [done|]. by rewrite app_cons, IH. Qed.

Lemma app_assoc' (s t u : string) : (s +:+ t) +:+ u = s +:+ t +:+ u.
Proof. induction s as [|a s IH]; [done|]. by rewrite !app_cons, IH. Qed.

Lemma app_length' (s t : string) :
  String.length (s +:+ t) = String.length s + String.length t.
Proof. induction s as [|a s IH]; [done|]. rewrite app_cons. simpl. by rewrite IH. Qed.

Lemma rfind_sep_free (s : string) : sep_free s = true → rfind posixpath.sep s = (-1)%Z.
Proof.
  induction s as [|a s IH]; [done|]. simpl.
  intros [Ha Hs]%andb_true_iff. rewrite (IH Hs). simpl.
  destruct (decide (a = posixpath.sep)) as [->|]; [|done].
  by rewrite bool_decide_true in Ha.
Qed.

Lemma rfind_nonneg_or (c : ascii) (s : string) :
  rfind c s = (-1)%Z ∨ (0 ≤ rfind c s < Z.of_nat (String.length s))%Z.
Proof.
  induction s as [|a s IH]; [by left|]. simpl.
  destruct (Z.leb_spec 0 (rfind c s)).
  - right. lia.
  - destruct (decide (a = c)); [right; lia | by left].
Qed.

Lemma rfind_app_sep (h d : string) :
  sep_free d = true →
  rfind posixpath.sep (h +:+ String posixpath.sep d) = Z.of_nat (String.length h).
Proof.
  intros Hd. induction h as [|a h IH].
  - rewrite app_nil_l'. simpl. by rewrite (rfind_sep_free d Hd).
  - rewrite app_cons. simpl. rewrite IH.
    destruct (Z.leb_spec 0 (Z.of_nat (String.length h))); lia.
Qed.

Lemma str_take_app (h t : string) : str_take (String.length h) (h +:+ t) = h.
Proof.
  induction h as [|a h IH]; simpl.
  - by destruct t.
  - by rewrite IH.
Qed.

Lemma str_drop_app (h t : string) : str_drop (String.length h) (h +:+ t) = t.
Proof. induction h as [|a h IH]; simpl; [by destruct t|done]. Qed.

Lemma str_take_0 (s : string) : str_take 0 s = "".
Proof. by destruct s. Qed.

Lemma str_drop_0 (s : string) : str_drop 0 s = s.
Proof. by destruct s. Qed.


Lemma str_take_length (n : nat) (s : string) : String.length (str_take n s) ≤ String.length s.
Proof. revert s. induction n as [|n IH]; intros [|a s]; simpl; try lia. specialize (IH s). lia. Qed.

Lemma rstrip_length (c : ascii) (s : string) : String.length (rstrip c s) ≤ String.length s.
Proof.
  induction s as [|a s IH]; simpl; [lia|].
  destruct (rstrip c s); simpl in *; [destruct (decide (a = c)); simpl; lia | lia].
Qed.

Lemma rstrip_sep_free (d : string) :
  sep_free d = true → d ≠ "" → rstrip posixpath.sep d = d.
Proof.
  induction d as [|a d IH]; [done|]. simpl.
  intros [Ha Hd]%andb_true_iff _.
  apply negb_true_iff, bool_decide_eq_false in Ha.
  destruct d as [|b d].
  - simpl. by rewrite decide_False.
  - rewrite IH by done. done.
Qed.

Lemma rstrip_app_keep (s d : string) :
  sep_free d = true → d ≠ "" → rstrip posixpath.sep (s +:+ d) = s +:+ d.
Proof.
  intros Hd Hne. induction s as [|a s IH].
  - by apply rstrip_sep_free.
  - rewrite app_cons. simpl. rewrite IH.
    destruct (s +:+ d) eqn:E; [|done].
    destruct s, d; done.
Qed.

Lemma rstrip_app_one (s : string) :
  rstrip posixpath.sep (s +:+ String posixpath.sep "") = rstrip posixpath.sep s.
Proof.
  induction s as [|a s IH]; [done|].
  rewrite app_cons. simpl. by rewrite IH.
Qed.

Lemma str_repeat_app_inv (c : ascii) (n : nat) (s d : string) :
  str_repeat c n = s +:+ d → d = str_repeat c (String.length d).
Proof.
  revert n. induction s as [|a s IH]; intros n.
  - rewrite app_nil_l'. intros <-. clear. induction n as [|n IH]; [done|].
    simpl. by rewrite <- IH.
  - rewrite app_cons. destruct n as [|n]; [done|]. simpl. intros [= _ H]. eauto.
Qed.

Lemma sep_free_not_repeat (d : string) (n : nat) :
  sep_free d = true → d ≠ "" → d ≠ str_repeat posixpath.sep n.
Proof.
  destruct d as [|a d]; [done|]. simpl. intros [Ha _]%andb_true_iff _.
  apply negb_true_iff, bool_decide_eq_false in Ha.
  destruct n; simpl; congruence.
Qed.

Lemma plain_inv (s : string) :
  plain s = true → sep_free s = true ∧ s ≠ "" ∧ s ≠ "." ∧ s ≠ "..".
Proof.
  unfold plain, truthy. rewrite !andb_true_iff, !negb_true_iff.
  rewrite bool_decide_eq_true, !bool_decide_eq_false. tauto.
Qed.

Lemma join_cons (s x y : string) (l : list string) :
  join s (x :: y :: l) = x +:+ s +:+ join s (y :: l).
Proof. reflexivity. Qed.

Lemma join_snoc (s d : string) (ds : list string) :
  ds ≠ [] → join s (ds ++ [d]) = join s ds +:+ s +:+ d.
Proof.
  induction ds as [|x [|y l] IH]; [done| |]; intros _.
  - done.
  - change ((x :: y :: l) ++ [d]) with (x :: y :: (l ++ [d])).
    rewrite !join_cons. change (y :: l ++ [d]) with ((y :: l) ++ [d]).
    rewrite IH by done. by rewrite !app_assoc'.
Qed.

(** The joined path of plain names ends in a name. *)
Lemma join_plain_end (ds : list string) :
  Forall (λ d, plain d = true) ds → ds ≠ [] →
  ∃ s d, join "/" ds = s +:+ d ∧ sep_free d = true ∧ d ≠ "".
Proof.
  intros Hds Hne. destruct (exists_last Hne) as (l & d & ->).
  rewrite Forall_app, Forall_singleton in Hds. destruct Hds as [_ Hd].
  apply plain_inv in Hd as (Hd & Hd' & _).
  destruct l as [|x l].
  - exists "", d. done.
  - exists (join "/" (x :: l) +:+ "/"), d. rewrite join_snoc by done.
    by rewrite app_assoc'.
Qed.

Lemma split_no_sep (d : string) :
  sep_free d = true → posixpath.split d = ("", d).
Proof.
  intros Hd. unfold posixpath.split. rewrite (rfind_sep_free d Hd).
  simpl. by rewrite ?str_take_0, ?str_drop_0.
Qed.

Lemma split_app_sep (h d : string) :
  sep_free d = true →
  (∃ s e, h = s +:+ e ∧ sep_free e = true ∧ e ≠ "") →
  posixpath.split (h +:+ "/" +:+ d) = (h, d).
Proof.
  intros Hd (s & e & -> & He & Hne). unfold posixpath.split.
  change ("/" +:+ d) with (String posixpath.sep d).
  rewrite rfind_app_sep by done.
  replace (Z.to_nat (Z.of_nat (String.length (s +:+ e)) + 1))
    with (String.length ((s +:+ e) +:+ String posixpath.sep "")).
  2: { rewrite app_length'. simpl. lia. }
  replace ((s +:+ e) +:+ String posixpath.sep d)
    with (((s +:+ e) +:+ String posixpath.sep "") +:+ d).
  2: { by rewrite app_assoc'. }
  rewrite str_take_app, str_drop_app.
  assert (truthy ((s +:+ e) +:+ String posixpath.sep "") = true) as ->.
  { apply bool_decide_eq_true. by destruct s, e. }
  rewrite bool_decide_true.
  - simpl. by rewrite rstrip_app_one, rstrip_app_keep.
  - intros Heq. rewrite app_assoc' in Heq. symmetry in Heq.
    apply str_repeat_app_inv in Heq.
    destruct e as [|a e]; [done|]. simpl in He.
    apply andb_true_iff in He as [Ha _].
    apply negb_true_iff, bool_decide_eq_false in Ha.
    rewrite app_cons in Heq. simpl in Heq. congruence.
Qed.

Lemma split_join_snoc (ds : list string) (d : string) :
  Forall (λ d, plain d = true) ds → ds ≠ [] → sep_free d = true →
  posixpath.split (join "/" (ds ++ [d])) = (join "/" ds, d).
Proof.
  intros Hds Hne Hd. rewrite join_snoc by done.
  apply split_app_sep; [done|]. by apply join_plain_end.
Qed.

Lemma dirname_split (p : string) : posixpath.dirname p = (posixpath.split p).1.
Proof. reflexivity. Qed.

Lemma components_sep_free (d : string) :
  sep_free d = true → components posixpath.sep d = [d].
Proof.
  induction d as [|a d IH]; [done|]. simpl.
  intros [Ha Hd]%andb_true_iff.
  apply negb_true_iff, bool_decide_eq_false in Ha.
  rewrite decide_False by done. by rewrite IH.
Qed.

Lemma components_app_sep (d r : string) :
  sep_free d = true →
  components posixpath.sep (d +:+ "/" +:+ r) = d :: components posixpath.sep r.
Proof.
  induction d as [|a d IH].
  - intros _. rewrite app_nil_l'. done.
  - cbn [sep_free]. intros [Ha Hd]%andb_true_iff.
    apply negb_true_iff, bool_decide_eq_false in Ha.
    rewrite (app_cons a d). cbn [components]. rewrite decide_False by done.
    by rewrite IH.
Qed.

Lemma components_join (ds : list string) :
  Forall (λ d, plain d = true) ds → ds ≠ [] →
  components posixpath.sep (join "/" ds) = ds.
Proof.
  induction ds as [|x [|y l] IH]; [done| |]; intros Hds _.
  - rewrite Forall_singleton in Hds. apply plain_inv in Hds as (? & _).
    by apply components_sep_free.
  - rewrite Forall_cons in Hds. destruct Hds as [Hx Hl].
    apply plain_inv in Hx as (? & _).
    rewrite join_cons, components_app_sep by done. by rewrite IH.
Qed.

Lemma join_plain_head (ds : list string) :
  Forall (λ d, plain d = true) ds → ds ≠ [] →
  join "/" ds ≠ "" ∧ os.isabs (join "/" ds) = false.
Proof.
  destruct ds as [|x l]; [done|]. intros Hds _.
  rewrite Forall_cons in Hds. destruct Hds as [Hx _].
  apply plain_inv in Hx as (Hx & Hne & _).
  destruct x as [|a x]; [done|]. simpl in Hx.
  apply andb_true_iff in Hx as [Ha _].
  apply negb_true_iff in Ha.
  destruct l; simpl; rewrite ?app_cons; simpl; done.
Qed.

Lemma strip_trailing_join (ds : list string) :
  Forall (λ d, plain d = true) ds → ds ≠ [] →
  os.strip_trailing (join "/" ds) = join "/" ds.
Proof.
  intros Hds Hne. destruct (join_plain_end ds Hds Hne) as (s & d & -> & Hd & Hd').
  unfold os.strip_trailing. case_bool_decide; [done|].
  by apply rstrip_app_keep.
Qed.

(** ** Steps of the monad *)

Lemma bind_inv {A B} (m : M A) (k : A → M B) (w w2 : World) (r : result B) :
  bind m k w = (w2, r) →
  (∃ w1 a, m w = (w1, Ok a) ∧ k a w1 = (w2, r)) ∨
  (∃ e, m w = (w2, Raise e) ∧ r = Raise e).
Proof.
  unfold bind. destruct (m w) as [w1 [a|e]].
  - intros H. left. eauto.
  - intros [= <- <-]. right. eauto.
Qed.

Lemma bind_ok {A B} (m : M A) (k : A → M B) (w w1 : World) (a : A) :
  m w = (w1, Ok a) → bind m k w = k a w1.
Proof. unfold bind. by intros ->. Qed.

Lemma bind_raise {A B} (m : M A) (k : A → M B) (w w1 : World) (e : exn) :
  m w = (w1, Raise e) → bind m k w = (w1, Raise e).
Proof. unfold bind. by intros ->. Qed.

Lemma catch_inv {A} (m : M A) (h : exn → M A) (w w2 : World) (r : result A) :
  catch m h w = (w2, r) →
  (∃ a, m w = (w2, Ok a) ∧ r = Ok a) ∨
  (∃ w1 e, m w = (w1, Raise e) ∧ h e w1 = (w2, r)).
Proof.
  unfold catch. destruct (m w) as [w1 [a|e]].
  - intros [= <- <-]. left. eauto.
  - intros H. right. eauto.
Qed.

Lemma for_each_app {A} (l1 l2 : list A) (body : A → M unit) (w : World) :
  for_each (l1 ++ l2) body w = (do _ <- for_each l1 body; for_each l2 body) w.
Proof.
  revert w. induction l1 as [|x l1 IH]; intros w; [done|].
  change ((x :: l1) ++ l2) with (x :: (l1 ++ l2)). cbn [for_each].
  unfold bind. destruct (body x w) as [w1 [[]|e]]; [|done].
  rewrite IH. done.
Qed.

Lemma for_each_ext {A} (l : list A) (f g : A → M unit) (w : World) :
  (∀ x w, x ∈ l → f x w = g x w) → for_each l f w = for_each l g w.
Proof.
  revert w. induction l as [|x l IH]; intros w Hfg; [done|].
  cbn [for_each]. unfold bind. rewrite Hfg by left.
  destruct (g x w) as [w1 [[]|e]]; [|done].
  apply IH. intros y w' Hy. apply Hfg. by right.
Qed.

Lemma for_each_map {A B} (h : A → B) (l : list A) (f : B → M unit) (w : World) :
  for_each (h <$> l) f w = for_each l (λ x, f (h x)) w.
Proof.
  revert w. induction l as [|x l IH]; intros w; [done|].
  cbn [for_each fmap list_fmap]. unfold bind.
  destruct (f (h x) w) as [w1 [[]|e]]; [|done]. apply IH.
Qed.

(** Two nested loops are one loop over the pairs. *)
Lemma for_each_nested {A B} (l : list (A * list B)) (f : A → B → M unit) (w : World) :
  for_each l (λ '(a, bs), for_each bs (f a)) w
  = for_each (l ≫= λ '(a, bs), pair a <$> bs) (λ '(a, b), f a b) w.
Proof.
  revert w. induction l as [|[a bs] l IH]; intros w; [done|].
  rewrite bind_cons, for_each_app. cbn [for_each].
  unfold bind. rewrite for_each_map.
  destruct (for_each bs _ w) as [w1 [[]|e]]; [|done]. apply IH.
Qed.

(** ** The system calls *)

Lemma resolve_ext (w w' : World) (p : string) :
  same_fs w w' → os.resolve w' p = os.resolve w p.
Proof. intros [Ht Hc]. unfold os.resolve. by rewrite Ht, Hc. Qed.

Lemma stat_ext (w w' : World) (p : string) :
  same_fs w w' → os.stat w' p = os.stat w p.
Proof.
  intros H. unfold os.stat. rewrite (resolve_ext _ _ _ H). destruct H as [-> _]. done.
Qed.

Lemma syscall_inv (w w' : World) (r : result unit) :
  os.syscall w = (w', r) →
  same_fs w w' ∧ (r = Ok tt ∨ r = Raise OSError) ∧
  (faults w = [] → w' = w ∧ r = Ok tt).
Proof.
  unfold os.syscall. destruct (faults w) as [|b rest] eqn:Hf.
  - intros [= <- <-]. repeat split; auto.
  - intros [= <- <-]. split; [done|]. split; [|done]. destruct b; auto.
Qed.

Lemma syscall_quiet (w : World) : faults w = [] → os.syscall w = (w, Ok tt).
Proof. unfold os.syscall. by intros ->. Qed.

Lemma grows_at_refl P t : grows_at P t t.
Proof. intros k. by left. Qed.

Lemma grows_at_trans P t1 t2 t3 :
  grows_at P t1 t2 → grows_at P t2 t3 → grows_at P t1 t3.
Proof.
  intros H12 H23 k. destruct (H12 k) as [E1|(E1 & E1' & HP)], (H23 k) as [E2|(E2 & E2' & HP')].
  - left. congruence.
  - right. split_and!; [congruence|done..].
  - right. split_and!; [done|congruence|done].
  - congruence.
Qed.

Lemma grows_at_weaken (P Q : list string → Prop) t t' :
  (∀ k, P k → Q k) → grows_at P t t' → grows_at Q t t'.
Proof. intros HPQ H k. destruct (H k) as [?|(? & ? & ?)]; [by left | right; auto]. Qed.

Lemma grows_at_insert P t k : t !! k = None → P k → grows_at P t (<[k := Dir]> t).
Proof.
  intros Hk HP k'. destruct (decide (k = k')) as [<-|Hne].
  - right. by rewrite lookup_insert_eq.
  - left. by rewrite lookup_insert_ne.
Qed.

Lemma grows_at_dir P t t' k : grows_at P t t' → t !! k = Some Dir → t' !! k = Some Dir.
Proof. intros H Hk. destruct (H k) as [E|(E & _)]; congruence. Qed.

Lemma grows_at_some P t t' k n : grows_at P t t' → t !! k = Some n → t' !! k = Some n.
Proof. intros H Hk. destruct (H k) as [E|(E & _)]; congruence. Qed.

(** *** Path lookup *)

Lemma namei_dirs_mono (t t' : gmap (list string) node) (cur names k : list string) :
  (∀ key, t !! key = Some Dir → t' !! key = Some Dir) →
  os.namei t cur names = inr k → os.namei t' cur names = inr k.
Proof.
  intros Hmono. revert cur. induction names as [|c rest IH]; intros cur; [done|].
  simpl. destruct (t !! cur) as [[|]|] eqn:E; [|done..].
  rewrite (Hmono _ E). repeat case_match; auto.
Qed.

Lemma namei_plain_step (t : gmap (list string) node) (cur rest : list string) (c : string) :
  plain c = true →
  os.namei t cur (c :: rest) =
    match t !! cur with
    | None => inl FileNotFoundError
    | Some (File _) => inl NotADirectoryError
    | Some Dir => os.namei t (cur ++ [c]) rest
    end.
Proof.
  intros (_ & H1 & H2 & H3)%plain_inv. cbn [os.namei].
  destruct (t !! cur) as [[|]|]; [|done..].
  unfold posixpath.curdir, posixpath.pardir.
  by rewrite !bool_decide_false.
Qed.

Lemma namei_plain_inv (t : gmap (list string) node) (cur names k : list string) :
  Forall (λ d, plain d = true) names →
  os.namei t cur names = inr k →
  k = cur ++ names ∧ ∀ i, i < length names → t !! (cur ++ take i names) = Some Dir.
Proof.
  intros Hp. revert cur. induction Hp as [|c rest Hc _ IH]; intros cur.
  - intros [= <-]. rewrite app_nil_r. split; [done|]. simpl. lia.
  - rewrite namei_plain_step by done.
    destruct (t !! cur) as [[|]|] eqn:E; [|done..].
    intros [-> Hi]%IH. rewrite <- app_assoc. split; [done|].
    intros [|i] Hlt; simpl.
    + by rewrite app_nil_r.
    + specialize (Hi i). rewrite <- app_assoc in Hi. apply Hi. simpl in Hlt. lia.
Qed.

Lemma namei_plain_ok (t : gmap (list string) node) (cur names : list string) :
  Forall (λ d, plain d = true) names →
  (∀ i, i < length names → t !! (cur ++ take i names) = Some Dir) →
  os.namei t cur names = inr (cur ++ names).
Proof.
  intros Hp. revert cur. induction Hp as [|c rest Hc _ IH]; intros cur Hi.
  - by rewrite app_nil_r.
  - rewrite namei_plain_step by done.
    pose proof (Hi 0 ltac:(simpl; lia)) as H0. simpl in H0.
    rewrite app_nil_r in H0. rewrite H0.
    rewrite IH; [by rewrite <- app_assoc|].
    intros i Hlt. rewrite <- app_assoc. apply (Hi (S i)). simpl. lia.
Qed.

Lemma resolve_plain (w : World) (ds : list string) :
  Forall (λ d, plain d = true) ds → ds ≠ [] →
  os.resolve w (join "/" ds) = os.namei (tree w) (cwd w) ds.
Proof.
  intros Hp Hne. unfold os.resolve.
  destruct (join_plain_head ds Hp Hne) as [H1 H2].
  rewrite bool_decide_false, H2 by done.
  by rewrite components_join.
Qed.

(** *** mkdir, open, write *)

Lemma mkdir_inv (p : string) (w w' : World) (r : result unit) :
  os.mkdir p w = (w', r) →
  cwd w' = cwd w ∧ (faults w = [] → faults w' = []) ∧
  ((∃ e, r = Raise e ∧ is_OSError e = true ∧ tree w' = tree w) ∨
   (r = Ok tt ∧ ∃ k, os.resolve w (os.strip_trailing p) = inr k ∧
      tree w !! k = None ∧ tree w' = <[k := Dir]> (tree w))).
Proof.
  unfold os.mkdir. intros [(w1 & [] & Hs & H)|(e & Hs & ->)]%bind_inv.
  - apply syscall_inv in Hs as (Hfs & _ & Hq).
    rewrite (resolve_ext _ _ _ Hfs) in H. destruct Hfs as [Ht Hc].
    assert (faults w = [] → faults w1 = []) as Hq'.
    { intros Hf. by destruct (Hq Hf) as [-> _]. }
    destruct (os.resolve w (os.strip_trailing p)) as [e|k] eqn:Hr.
    + injection H as <- <-. split_and!; [done..|]. left. exists e.
      split_and!; [done| |done].
      unfold os.resolve in Hr. case_bool_decide; [by injection Hr as <-|].
      clear -Hr. revert Hr. generalize (if os.isabs (os.strip_trailing p) then [] else cwd w).
      induction (components posixpath.sep (os.strip_trailing p)) as [|c rest IH];
        intros cur; [done|]. simpl.
      repeat case_match; try (by intros [= <-]); eauto.
    + rewrite Ht in H. destruct (tree w !! k) eqn:Hk.
      * injection H as <- <-. split_and!; [done..|]. left. eauto.
      * injection H as <- <-. split_and!; [done..|]. right. eauto.
  - apply syscall_inv in Hs as ([Ht Hc] & [?|He] & Hq); [done|].
    split_and!; [done| |].
    + intros Hf. by destruct (Hq Hf).
    + left. injection He as ->. eauto.
Qed.

Lemma mkdir_quiet (p : string) (w : World) :
  faults w = [] →
  os.mkdir p w =
    match os.resolve w (os.strip_trailing p) with
    | inl e => (w, Raise e)
    | inr k =>
        match tree w !! k with
        | Some _ => (w, Raise FileExistsError)
        | None => (set_tree (<[k := Dir]> (tree w)) w, Ok tt)
        end
    end.
Proof. intros Hf. unfold os.mkdir. by rewrite (bind_ok _ _ _ _ _ (syscall_quiet w Hf)). Qed.

Lemma open_w_inv (p : string) (w w' : World) (r : result (list string)) :
  os.open_w p w = (w', r) →
  cwd w' = cwd w ∧ (faults w = [] → faults w' = []) ∧
  ((∃ e, r = Raise e ∧ tree w' = tree w) ∨
   (∃ k, r = Ok k ∧ os.resolve w p = inr k ∧ tree w !! k ≠ Some Dir ∧
      tree w' = <[k := File ""]> (tree w))).
Proof.
  unfold os.open_w. intros [(w1 & [] & Hs & H)|(e & Hs & ->)]%bind_inv.
  - apply syscall_inv in Hs as (Hfs & _ & Hq).
    rewrite (resolve_ext _ _ _ Hfs) in H. destruct Hfs as [Ht Hc].
    assert (faults w = [] → faults w1 = []) as Hq'.
    { intros Hf. by destruct (Hq Hf) as [-> _]. }
    destruct (os.resolve w p) as [e|k] eqn:Hr.
    + injection H as <- <-. split_and!; [done..|]. left. eauto.
    + rewrite Ht in H. destruct (tree w !! k) as [[|c]|] eqn:Hk.
      * injection H as <- <-. split_and!; [done..|]. left. eauto.
      * injection H as <- <-. split_and!; [done..|]. right. exists k.
        split_and!; [done..|congruence|done].
      * injection H as <- <-. split_and!; [done..|]. right. exists k.
        split_and!; [done..|congruence|done].
  - apply syscall_inv in Hs as ([Ht Hc] & _ & Hq).
    split_and!; [done| |].
    + intros Hf. by destruct (Hq Hf).
    + left. eauto.
Qed.

Lemma open_w_quiet (p : string) (w : World) :
  faults w = [] →
  os.open_w p w =
    match os.resolve w p with
    | inl e => (w, Raise e)
    | inr k =>
        match tree w !! k with
        | Some Dir => (w, Raise IsADirectoryError)
        | _ => (set_tree (<[k := File ""]> (tree w)) w, Ok k)
        end
    end.
Proof. intros Hf. unfold os.open_w. by rewrite (bind_ok _ _ _ _ _ (syscall_quiet w Hf)). Qed.

(** A write to a file that holds [c], over the rest [t] of the tree. *)
Lemma write_inv (f : list string) (s c : string) (t : gmap (list string) node)
    (w w' : World) (r : result unit) :
  tree w = <[f := File c]> t →
  os.write f s w = (w', r) →
  cwd w' = cwd w ∧ (faults w = [] → faults w' = []) ∧
  ((r = Ok tt ∧ tree w' = <[f := File (c +:+ s)]> t) ∨
   (r = Raise OSError ∧ tree w' = <[f := File c]> t)).
Proof.
  intros Hw. unfold os.write. intros [(w1 & [] & Hs & H)|(e & Hs & ->)]%bind_inv.
  - apply syscall_inv in Hs as ([Ht Hc] & _ & Hq).
    rewrite Ht, Hw, lookup_insert_eq in H. injection H as <- <-.
    split_and!; [done| |].
    + intros Hf. by destruct (Hq Hf) as [-> _].
    + left. split; [done|]. simpl. by rewrite insert_insert_eq.
  - apply syscall_inv in Hs as ([Ht Hc] & [?|He] & Hq); [done|].
    split_and!; [done| |].
    + intros Hf. by destruct (Hq Hf).
    + right. split; [done|]. congruence.
Qed.

Lemma write_quiet (f : list string) (s c : string) (w : World) :
  faults w = [] → tree w !! f = Some (File c) →
  os.write f s w = (set_tree (<[f := File (c +:+ s)]> (tree w)) w, Ok tt).
Proof.
  intros Hf Hc. unfold os.write.
  rewrite (bind_ok _ _ _ _ _ (syscall_quiet w Hf)). by rewrite Hc.
Qed.

(** *** makedirs *)

Lemma makedirs_rec_S (fuel : nat) (name : string) (exist_ok : bool) :
  os.makedirs_rec (S fuel) name exist_ok =
    (do finished <- makedirs_head fuel (makedirs_split name).1 (makedirs_split name).2 exist_ok;
     if finished : bool then ret tt else makedirs_leaf name exist_ok).
Proof.
  cbn [os.makedirs_rec]. unfold makedirs_split.
  destruct (posixpath.split name) as [h t].
  by destruct (if negb (truthy t) then posixpath.split h else (h, t)) as [h' t'].
Qed.

Lemma makedirs_leaf_inv (name : string) (exist_ok : bool) (w w' : World) (r : result unit) :
  makedirs_leaf name exist_ok w = (w', r) →
  cwd w' = cwd w ∧ (faults w = [] → faults w' = []) ∧
  ((∃ e, r = Raise e ∧ tree w' = tree w) ∨
   (r = Ok tt ∧ tree w' = tree w ∧ os.stat w name = Some Dir) ∨
   (r = Ok tt ∧ ∃ k, os.resolve w (os.strip_trailing name) = inr k ∧
      tree w !! k = None ∧ tree w' = <[k := Dir]> (tree w))).
Proof.
  unfold makedirs_leaf. intros [([] & Hm & ->)|(w1 & e & Hm & Hh)]%catch_inv.
  - apply mkdir_inv in Hm as (Hc & Hf & [(e & ? & _)|(_ & Hk)]); [done|].
    split_and!; [done..|]. right. right. done.
  - apply mkdir_inv in Hm as (Hc & Hf & [(e' & [= <-] & He & Ht)|(? & _)]); [|done].
    rewrite He in Hh. unfold bind, os.path_isdir in Hh.
    rewrite (stat_ext w w1 name) in Hh by done.
    destruct (negb exist_ok || negb (bool_decide (os.stat w name = Some Dir))) eqn:Hb.
    + injection Hh as <- <-. split_and!; [done..|]. left. eauto.
    + injection Hh as <- <-. split_and!; [done..|]. right. left.
      apply orb_false_iff in Hb as [_ Hb]. apply negb_false_iff, bool_decide_eq_true in Hb.
      done.
Qed.

Lemma pass_exists_inv (e : exn) (w w' : World) (r : result unit) :
  match e with FileExistsError => ret tt | _ => raise e end w = (w', r) → w' = w.
Proof. destruct e; unfold ret, raise; congruence. Qed.

(** Whatever its name and its outcome, [makedirs] keeps the working
    directory and only adds directories. *)
Lemma makedirs_frame (fuel : nat) (name : string) (exist_ok : bool)
    (w w' : World) (r : result unit) :
  os.makedirs_rec fuel name exist_ok w = (w', r) →
  cwd w' = cwd w ∧ (faults w = [] → faults w' = []) ∧
  grows_at (λ _, True) (tree w) (tree w').
Proof.
  revert name w w' r. induction fuel as [|fuel IH]; intros name w w' r.
  { intros [= <- <-]. split_and!; [done..|]. apply grows_at_refl. }
  rewrite makedirs_rec_S.
  assert (∀ w1 r1, makedirs_head fuel (makedirs_split name).1 (makedirs_split name).2
            exist_ok w = (w1, r1) →
          cwd w1 = cwd w ∧ (faults w = [] → faults w1 = []) ∧
          grows_at (λ _, True) (tree w) (tree w1)) as Hhead.
  { intros w1 r1 Hh. unfold makedirs_head in Hh.
    destruct (truthy _ && truthy _).
    2: { injection Hh as <- <-. split_and!; [done..|]. apply grows_at_refl. }
    unfold bind at 1 in Hh. unfold os.path_exists in Hh.
    destruct (negb _).
    2: { injection Hh as <- <-. split_and!; [done..|]. apply grows_at_refl. }
    assert (∃ r2, catch (os.makedirs_rec fuel (makedirs_split name).1 exist_ok)
              (λ e, match e with FileExistsError => ret tt | _ => raise e end) w = (w1, r2))
      as [r2 Hc].
    { unfold bind in Hh. destruct (catch _ _ w) as [w2 [[]|e]]; injection Hh as <- <-; eauto. }
    apply catch_inv in Hc as [(a & Hm & _)|(w2 & e & Hm & He)].
    - by apply IH in Hm.
    - apply IH in Hm.
      by apply pass_exists_inv in He as ->. }
  intros [(w1 & fin & Hh & Hk)|(e & Hh & ->)]%bind_inv.
  - destruct (Hhead _ _ Hh) as (Hc1 & Hf1 & Hg1).
    destruct fin.
    + injection Hk as <- <-. done.
    + apply makedirs_leaf_inv in Hk as (Hc2 & Hf2 & Hcases).
      split_and!; [congruence|auto|].
      eapply grows_at_trans; [done|].
      destruct Hcases as [(e & _ & ->)|[(_ & -> & _)|(_ & k & _ & Hk & ->)]];
        [apply grows_at_refl..|by apply grows_at_insert].
  - by destruct (Hhead _ _ Hh).
Qed.

(** *** makedirs on a path of plain names *)

Lemma plain_path_snoc (ds : list string) (d : string) :
  plain_path (ds ++ [d]) → Forall (λ d, plain d = true) ds ∧ plain d = true.
Proof. intros [H _]. by rewrite Forall_app, Forall_singleton in H. Qed.

Lemma makedirs_split_join (ds : list string) (d : string) :
  plain_path (ds ++ [d]) → makedirs_split (join "/" (ds ++ [d])) = (join "/" ds, d).
Proof.
  intros [Hds Hd]%plain_path_snoc. apply plain_inv in Hd as (Hd & Hne & _).
  unfold makedirs_split. destruct ds as [|x l].
  - change (join "/" ([] ++ [d])) with d. rewrite split_no_sep by done.
    unfold truthy. by rewrite bool_decide_true.
  - rewrite split_join_snoc by done.
    unfold truthy. by rewrite bool_decide_true.
Qed.

Lemma stat_plain (w : World) (ds : list string) (n : node) :
  plain_path ds →
  os.stat w (join "/" ds) = Some n →
  tree w !! (cwd w ++ ds) = Some n ∧
  ∀ i, i < length ds → tree w !! (cwd w ++ take i ds) = Some Dir.
Proof.
  intros [Hp Hne]. unfold os.stat. rewrite resolve_plain by done.
  destruct (os.namei _ _ _) as [e|k] eqn:Hw; [done|].
  apply namei_plain_inv in Hw as [-> Hi]; done.
Qed.

Lemma stat_plain_ok (w : World) (ds : list string) :
  plain_path ds →
  (∀ i, i < length ds → tree w !! (cwd w ++ take i ds) = Some Dir) →
  os.stat w (join "/" ds) = tree w !! (cwd w ++ ds).
Proof.
  intros [Hp Hne] Hi. unfold os.stat. rewrite resolve_plain by done.
  by rewrite namei_plain_ok.
Qed.

Lemma chain_snoc (c ds : list string) (d : string) (k : list string) :
  chain c ds k → chain c (ds ++ [d]) k.
Proof.
  intros (i & Hi & ->). exists i. rewrite length_app. split; [lia|].
  by rewrite take_app_le by lia.
Qed.

Lemma chain_last (c ds : list string) : ds ≠ [] → chain c ds (c ++ ds).
Proof.
  intros Hne. exists (length ds). rewrite firstn_all. split; [|done].
  destruct ds; [done|]. simpl. lia.
Qed.

Lemma makedirs_where (fuel : nat) (ds : list string) (exist_ok : bool)
    (w w' : World) (r : result unit) :
  plain_path ds →
  os.makedirs_rec fuel (join "/" ds) exist_ok w = (w', r) →
  grows_at (chain (cwd w) ds) (tree w) (tree w') ∧
  (r = Ok tt → os.stat w' (join "/" ds) = Some Dir).
Proof.
  revert ds w w' r. induction fuel as [|fuel IH]; intros ds w w' r Hp.
  { intros [= <- <-]. split; [apply grows_at_refl|done]. }
  destruct (exists_last (proj2 Hp)) as (ds' & d & ->).
  rewrite makedirs_rec_S, makedirs_split_join by done. cbn [fst snd].
  destruct (plain_path_snoc _ _ Hp) as [Hds' Hd].
  apply plain_inv in Hd as (Hd & Hdne & Hdot & _).
  assert (∀ w1 r1, makedirs_head fuel (join "/" ds') d exist_ok w = (w1, r1) →
          cwd w1 = cwd w ∧ grows_at (chain (cwd w) (ds' ++ [d])) (tree w) (tree w1) ∧
          ∀ fin, r1 = Ok fin → fin = false) as Hhead.
  { intros w1 r1 Hh. unfold makedirs_head in Hh.
    destruct (truthy (join "/" ds')) eqn:Htr.
    2: { injection Hh as <- <-. split_and!; [done|apply grows_at_refl|]. by intros ? [= <-]. }
    assert (ds' ≠ []) as Hne' by (by intros ->).
    assert (truthy d = true) as Htd by (by apply bool_decide_eq_true).
    rewrite Htd in Hh. cbn [andb] in Hh.
    unfold bind at 1 in Hh. unfold os.path_exists in Hh.
    destruct (negb _).
    2: { injection Hh as <- <-. split_and!; [done|apply grows_at_refl|]. by intros ? [= <-]. }
    unfold bind in Hh.
    destruct (catch _ _ w) as [w2 [[]|e]] eqn:Hc; injection Hh as <- <-.
    - apply catch_inv in Hc as [(a & Hm & _)|(w3 & e & Hm & He)].
      + pose proof (makedirs_frame _ _ _ _ _ _ Hm) as (Hcw & _).
        apply IH in Hm as [Hg _]; [|done].
        split_and!; [done| |].
        * eapply grows_at_weaken; [|done]. intros k. apply chain_snoc.
        * intros ? [= <-]. unfold posixpath.curdir. by rewrite bool_decide_false.
      + pose proof (makedirs_frame _ _ _ _ _ _ Hm) as (Hcw & _).
        apply IH in Hm as [Hg _]; [|done].
        apply pass_exists_inv in He as ->.
        split_and!; [done| |].
        * eapply grows_at_weaken; [|done]. intros k. apply chain_snoc.
        * intros ? [= <-]. unfold posixpath.curdir. by rewrite bool_decide_false.
    - apply catch_inv in Hc as [(a & Hm & ?)|(w3 & e' & Hm & He)]; [done|].
      pose proof (makedirs_frame _ _ _ _ _ _ Hm) as (Hcw & _).
      apply IH in Hm as [Hg _]; [|done].
      apply pass_exists_inv in He as ->.
      split_and!; [done| |done].
      eapply grows_at_weaken; [|done]. intros k. apply chain_snoc. }
  intros [(w1 & fin & Hh & Hk)|(e & Hh & ->)]%bind_inv.
  - destruct (Hhead _ _ Hh) as (Hc1 & Hg1 & Hfin).
    rewrite (Hfin fin eq_refl) in Hk.
    apply makedirs_leaf_inv in Hk as (Hc2 & _ & Hcases).
    destruct Hcases as [(e & -> & ->)|[(-> & Ht & Hst)|(-> & k & Hr & Hk & Ht)]].
    + done.
    + rewrite Ht. split; [done|]. intros _.
      rewrite (stat_ext w1 w'); done.
    + rewrite strip_trailing_join in Hr by apply Hp.
      assert (k = cwd w ++ ds' ++ [d]) as ->.
      { rewrite resolve_plain in Hr by apply Hp.
        apply namei_plain_inv in Hr as [-> _]; [by rewrite Hc1 | apply Hp]. }
      split.
      * eapply grows_at_trans; [done|]. rewrite Ht.
        apply grows_at_insert; [done|]. apply chain_last. by destruct ds'.
      * intros _. unfold os.stat.
        assert (os.resolve w' (join "/" (ds' ++ [d])) = inr (cwd w ++ ds' ++ [d])) as ->.
        { unfold os.resolve in *. rewrite Hc2. case_bool_decide; [done|].
          eapply namei_dirs_mono; [|done]. intros key Hkey. rewrite Ht.
          rewrite lookup_insert_ne; [done|]. congruence. }
        rewrite Ht. by rewrite lookup_insert_eq.
  - destruct (Hhead _ _ Hh) as (_ & Hg & _). done.
Qed.

Lemma makedirs_leaf_quiet (ds : list string) (w : World) :
  plain_path ds → faults w = [] →
  (∀ i, i < length ds → tree w !! (cwd w ++ take i ds) = Some Dir) →
  dir_or_absent (tree w !! (cwd w ++ ds)) →
  ∃ w', makedirs_leaf (join "/" ds) true w = (w', Ok tt).
Proof.
  intros Hp Hf Hi Hleaf. unfold makedirs_leaf, catch.
  rewrite mkdir_quiet, strip_trailing_join, resolve_plain by (done || apply Hp).
  rewrite namei_plain_ok by (done || apply Hp).
  destruct Hleaf as [-> | Hd]; [eauto|]. rewrite Hd. cbn [is_OSError].
  unfold bind, os.path_isdir. rewrite stat_plain_ok, Hd by done.
  rewrite bool_decide_true by done. cbn. eauto.
Qed.

(** Without injected errors, [makedirs] succeeds as soon as nothing on the
    way is a file. *)
Lemma makedirs_quiet (fuel : nat) (ds : list string) (w : World) :
  plain_path ds → length ds ≤ fuel → faults w = [] →
  tree w !! cwd w = Some Dir →
  (∀ i, 0 < i ≤ length ds → dir_or_absent (tree w !! (cwd w ++ take i ds))) →
  ∃ w', os.makedirs_rec fuel (join "/" ds) true w = (w', Ok tt).
Proof.
  revert ds w. induction fuel as [|fuel IH]; intros ds w Hp Hlen Hf Hcwd Hcompat.
  { destruct Hp as [_ Hne]. destruct ds; [done|simpl in Hlen; lia]. }
  destruct (exists_last (proj2 Hp)) as (ds' & d & ->).
  rewrite makedirs_rec_S, makedirs_split_join by done. cbn [fst snd].
  destruct (plain_path_snoc _ _ Hp) as [Hds' Hd].
  apply plain_inv in Hd as (Hd & Hdne & Hdot & _).
  rewrite length_app in Hlen, Hcompat. simpl in Hlen, Hcompat.
  assert (∃ w1, makedirs_head fuel (join "/" ds') d true w = (w1, Ok false) ∧
            cwd w1 = cwd w ∧ faults w1 = [] ∧
            grows_at (chain (cwd w) ds') (tree w) (tree w1) ∧
            ∀ i, i ≤ length ds' → tree w1 !! (cwd w ++ take i ds') = Some Dir)
    as (w1 & Hh & Hc1 & Hf1 & Hg1 & Hi1).
  { unfold makedirs_head. destruct ds' as [|x l].
    { exists w. split_and!; [done..|apply grows_at_refl|].
      intros i ?. by rewrite take_nil, app_nil_r. }
    assert (plain_path (x :: l)) as Hp' by done.
    assert (truthy (join "/" (x :: l)) = true) as ->.
    { apply bool_decide_eq_true. by apply join_plain_head. }
    assert (truthy d = true) as -> by (by apply bool_decide_eq_true).
    cbn [andb]. unfold bind at 1. unfold os.path_exists.
    destruct (os.stat w (join "/" (x :: l))) as [n|] eqn:Hst.
    - rewrite bool_decide_true by eauto. cbn [negb].
      exists w. split_and!; [done..|apply grows_at_refl|].
      apply stat_plain in Hst as [Hn Hi]; [|done].
      intros i Hle. destruct (decide (i = length (x :: l))) as [->|Hne].
      + rewrite firstn_all.
        destruct (Hcompat (length (x :: l)) ltac:(simpl; lia)) as [E|E];
          rewrite take_app_le, firstn_all in E by lia; congruence.
      + apply Hi. lia.
    - rewrite bool_decide_false by (by intros [? ?]). cbn [negb].
      destruct (IH (x :: l) w) as [w1 Hm]; [done|simpl in *; lia|done..| |].
      { intros i Hi. specialize (Hcompat i ltac:(simpl in *; lia)).
        by rewrite take_app_le in Hcompat by lia. }
      exists w1. unfold bind, catch. rewrite Hm.
      pose proof (makedirs_frame _ _ _ _ _ _ Hm) as (Hc1 & Hf1 & _).
      pose proof (makedirs_where _ _ _ _ _ _ Hp' Hm) as [Hg Hst1].
      unfold posixpath.curdir. rewrite bool_decide_false by done.
      split_and!; [done..|auto|done|].
      specialize (Hst1 eq_refl).
      apply stat_plain in Hst1 as [Hn Hi]; [|done]. rewrite Hc1 in Hn, Hi.
      intros i Hle. destruct (decide (i = length (x :: l))) as [->|Hne].
      + by rewrite firstn_all.
      + apply Hi. lia. }
  rewrite (bind_ok _ _ _ _ _ Hh).
  apply makedirs_leaf_quiet; [done..| |].
  - rewrite Hc1, length_app. simpl. intros i Hi.
    rewrite take_app_le by lia. apply Hi1. lia.
  - rewrite Hc1.
    destruct (Hg1 (cwd w ++ ds' ++ [d])) as [->|(_ & -> & _)]; [|by right].
    specialize (Hcompat (length ds' + 1) ltac:(lia)).
    replace (length ds' + 1) with (length (ds' ++ [d])) in Hcompat
      by (rewrite length_app; simpl; lia).
    by rewrite firstn_all in Hcompat.
Qed.

(** ** create_stub_file *)

Lemma str_prefix_refl (s : string) : str_prefix s s.
Proof. exists "". by rewrite app_nil_r'. Qed.

Lemma str_prefix_app (c s u : string) : str_prefix c s → str_prefix c (s +:+ u).
Proof. intros [rest ->]. exists (rest +:+ u). by rewrite app_assoc'. Qed.

Lemma template_pieces (title : string) :
  ((((("" +:+ ("# " +:+ title +:+ nl +:+ nl)) +:+ ("## Overview" +:+ nl +:+ nl))
       +:+ ("## Usage" +:+ nl +:+ nl)) +:+ ("## Examples" +:+ nl +:+ nl))
       +:+ ("## Related Types" +:+ nl +:+ nl))
  = template title.
Proof. unfold template. by rewrite app_nil_l', !app_assoc'. Qed.

Lemma finally_close {A} (m : M A) (f : list string) (w : World) :
  finally m (os.close f) w = m w.
Proof. unfold finally, os.close, ret. by destruct (m w). Qed.

Lemma foldl_append_shift (l : list string) (a b : string) :
  foldl String.append (a +:+ b) l = a +:+ foldl String.append b l.
Proof.
  revert a b. induction l as [|x l IH]; intros a b; [done|].
  cbn [foldl]. by rewrite app_assoc', IH.
Qed.

Lemma write_all_inv (f : list string) (ps : list string) (c0 : string)
    (t : gmap (list string) node) (w w' : World) (r : result unit) :
  tree w = <[f := File c0]> t →
  for_each ps (os.write f) w = (w', r) →
  cwd w' = cwd w ∧ (faults w = [] → faults w' = []) ∧
  ∃ c, tree w' = <[f := File c]> t ∧
       str_prefix c (foldl String.append c0 ps) ∧
       (r = Ok tt ∧ c = foldl String.append c0 ps ∨ r = Raise OSError).
Proof.
  revert c0 w. induction ps as [|p ps IH]; intros c0 w Ht.
  - intros [= <- <-]. split_and!; [done..|]. exists c0.
    split_and!; [done|apply str_prefix_refl|by left].
  - cbn [for_each foldl]. intros [(w1 & [] & H1 & H)|(e & H1 & ->)]%bind_inv.
    + apply (write_inv _ _ _ _ _ _ _ Ht) in H1 as (Hc & Hf & [[_ Ht1]|[? _]]); [|done].
      apply (IH _ _ Ht1) in H as (Hc' & Hf' & c & ? & ? & ?).
      split_and!; [congruence|auto|]. by exists c.
    + apply (write_inv _ _ _ _ _ _ _ Ht) in H1 as (Hc & Hf & [[? _]|[-> Ht1]]); [done|].
      split_and!; [done..|]. exists c0. split_and!; [done| |by right].
      exists (foldl String.append p ps). apply foldl_append_shift.
Qed.

(** The five writes, on a file just opened. *)
Lemma stub_writes_inv (title : string) (f : list string) (t : gmap (list string) node)
    (w w' : World) (r : result unit) :
  tree w = <[f := File ""]> t →
  (do _ <- os.write f ("# " +:+ title +:+ nl +:+ nl);
   do _ <- os.write f ("## Overview" +:+ nl +:+ nl);
   do _ <- os.write f ("## Usage" +:+ nl +:+ nl);
   do _ <- os.write f ("## Examples" +:+ nl +:+ nl);
   os.write f ("## Related Types" +:+ nl +:+ nl)) w = (w', r) →
  cwd w' = cwd w ∧ (faults w = [] → faults w' = []) ∧
  ∃ c, tree w' = <[f := File c]> t ∧ str_prefix c (template title) ∧
       (r = Ok tt ∧ c = template title ∨ r = Raise OSError).
Proof.
  intros Ht H. rewrite <- (template_pieces title).
  apply (write_all_inv f
    [ "# " +:+ title +:+ nl +:+ nl; "## Overview" +:+ nl +:+ nl;
      "## Usage" +:+ nl +:+ nl; "## Examples" +:+ nl +:+ nl;
      "## Related Types" +:+ nl +:+ nl ] "" t w w' r Ht).
  rewrite <- H. cbn [for_each]. unfold bind.
  repeat (destruct (os.write f _ _) as [? [[]|?]]; try done).
Qed.

(** What a call of [create_stub_file] does, whatever the path, the schedule
    and the outcome: [makedirs], then either nothing more, or the file at the
    key of [path] holds a prefix of the template, all of it on success. *)
Lemma create_stub_file_inv (path title : string) (w w' : World) (r : result unit) :
  create_stub_file path title w = (w', r) →
  ∃ w1 r1, os.makedirs (posixpath.dirname path) true w = (w1, r1) ∧
    cwd w' = cwd w1 ∧ (faults w1 = [] → faults w' = []) ∧
    match r1 with
    | Raise e => r = Raise e ∧ w' = w1
    | Ok _ =>
        (∃ e, r = Raise e ∧ tree w' = tree w1) ∨
        (∃ k c, os.resolve w1 path = inr k ∧ tree w1 !! k ≠ Some Dir ∧
           tree w' = <[k := File c]> (tree w1) ∧ str_prefix c (template title) ∧
           (r = Ok tt ∧ c = template title ∨ r = Raise OSError))
    end.
Proof.
  unfold create_stub_file.
  intros [(w1 & [] & Hm & H)|(e & Hm & ->)]%bind_inv.
  2: { exists w', (Raise e). done. }
  exists w1, (Ok tt). split; [done|].
  unfold os.with_open_w in H.
  apply bind_inv in H as [(w2 & k & Ho & H)|(e & Ho & ->)].
  - apply open_w_inv in Ho as (Hc & Hf & [(e & ? & _)|(k' & [= <-] & Hr & Hk & Ht)]); [done|].
    rewrite finally_close in H.
    apply (stub_writes_inv _ _ _ _ _ _ Ht) in H as (Hc' & Hf' & c & Ht' & Hpre & Hres).
    split_and!; [congruence|auto|]. right. exists k, c. done.
  - apply open_w_inv in Ho as (Hc & Hf & [(e' & _ & Ht)|(k' & ? & _)]); [|done].
    split_and!; [done..|]. left. eauto.
Qed.

Lemma resolve_insert_file (w w' : World) (p c : string) (k : list string) :
  os.resolve w p = inr k → tree w !! k ≠ Some Dir →
  tree w' = <[k := File c]> (tree w) → cwd w' = cwd w →
  os.resolve w' p = inr k.
Proof.
  unfold os.resolve. intros Hr Hk -> ->. case_bool_decide; [done|].
  eapply namei_dirs_mono; [|done].
  intros key Hkey. rewrite lookup_insert_ne; [done|]. congruence.
Qed.

Lemma dirname_join_snoc (ds : list string) (f : string) :
  plain_path ds → plain f = true →
  posixpath.dirname (join "/" (ds ++ [f])) = join "/" ds.
Proof.
  intros [Hp Hne] (Hf & _)%plain_inv.
  by rewrite dirname_split, split_join_snoc.
Qed.

Lemma plain_path_app (ds : list string) (f : string) :
  plain_path ds → plain f = true → plain_path (ds ++ [f]).
Proof.
  intros [Hp Hne] Hf. split.
  - rewrite Forall_app, Forall_singleton. done.
  - by destruct ds.
Qed.

Lemma join_length_plain (ds : list string) :
  Forall (λ d, plain d = true) ds → length ds ≤ S (String.length (join "/" ds)).
Proof.
  induction 1 as [|x [|y l] Hx _ IH]; [simpl; lia..|].
  rewrite join_cons, !app_length'. simpl in *.
  apply plain_inv in Hx as (_ & Hx & _). destruct x; [done|]. simpl. lia.
Qed.

Lemma not_chain_longer (c ds : list string) (f : string) : ¬ chain c ds (c ++ ds ++ [f]).
Proof.
  intros (i & Hi & Heq). apply (inj (app c)) in Heq.
  apply (f_equal length) in Heq. rewrite length_app, length_take in Heq.
  simpl in Heq. lia.
Qed.

(** The same on a path of plain names: the keys are known. *)
Lemma create_stub_plain_inv (ds : list string) (f title : string)
    (w w' : World) (r : result unit) :
  plain_path ds → plain f = true →
  create_stub_file (join "/" (ds ++ [f])) title w = (w', r) →
  cwd w' = cwd w ∧ (faults w = [] → faults w' = []) ∧
  ∃ t1, grows_at (chain (cwd w) ds) (tree w) t1 ∧
    ((∃ e, r = Raise e ∧ tree w' = t1) ∨
     (∃ c, (∀ i, i ≤ length ds → t1 !! (cwd w ++ take i ds) = Some Dir) ∧
        t1 !! (cwd w ++ ds ++ [f]) ≠ Some Dir ∧
        tree w' = <[cwd w ++ ds ++ [f] := File c]> t1 ∧
        str_prefix c (template title) ∧
        (r = Ok tt ∧ c = template title ∨ r = Raise OSError))).
Proof.
  intros Hp Hf (w1 & r1 & Hm & Hc & Hq & H)%create_stub_file_inv.
  rewrite dirname_join_snoc in Hm by done. unfold os.makedirs in Hm.
  pose proof (makedirs_frame _ _ _ _ _ _ Hm) as (Hc1 & Hf1 & _).
  pose proof (makedirs_where _ _ _ _ _ _ Hp Hm) as [Hg Hst].
  split_and!; [congruence|auto|]. exists (tree w1). split; [done|].
  destruct r1 as [[]|e].
  2: { destruct H as [-> ->]. left. eauto. }
  destruct H as [(e & -> & Ht)|(k & c & Hr & Hk & Ht & Hpre & Hres)]; [left; eauto|].
  right. exists c.
  rewrite resolve_plain in Hr by (by apply plain_path_app).
  apply namei_plain_inv in Hr as [-> Hi]; [|by apply plain_path_app].
  rewrite Hc1 in *. split_and!; [|done..].
  intros i Hle. specialize (Hi i). rewrite length_app in Hi. simpl in Hi.
  rewrite take_app_le in Hi by lia. apply Hi. lia.
Qed.

(** Without injected errors the call succeeds as soon as nothing on the way
    is a file and the target is not a directory. *)
Lemma create_stub_plain_quiet (ds : list string) (f title : string) (w : World) :
  plain_path ds → plain f = true → faults w = [] →
  tree w !! cwd w = Some Dir →
  (∀ i, 0 < i ≤ length ds → dir_or_absent (tree w !! (cwd w ++ take i ds))) →
  tree w !! (cwd w ++ ds ++ [f]) ≠ Some Dir →
  ∃ w', create_stub_file (join "/" (ds ++ [f])) title w = (w', Ok tt).
Proof.
  intros Hp Hf Hq Hcwd Hcompat Hleaf.
  destruct (makedirs_quiet (S (String.length (join "/" ds))) ds w) as [w1 Hm];
    [done|by apply join_length_plain, Hp|done..|].
  pose proof (makedirs_frame _ _ _ _ _ _ Hm) as (Hc1 & Hf1 & _).
  pose proof (makedirs_where _ _ _ _ _ _ Hp Hm) as [Hg Hst].
  specialize (Hst eq_refl).
  apply stat_plain in Hst as [Hlast Hi]; [|done]. rewrite Hc1 in Hlast, Hi.
  unfold create_stub_file. rewrite dirname_join_snoc by done.
  unfold os.makedirs. rewrite (bind_ok _ _ _ _ _ Hm).
  unfold os.with_open_w.
  assert (os.resolve w1 (join "/" (ds ++ [f])) = inr (cwd w ++ ds ++ [f])) as Hr.
  { rewrite resolve_plain by (by apply plain_path_app).
    rewrite Hc1. apply namei_plain_ok; [by apply plain_path_app|].
    intros i. rewrite length_app. simpl. intros Hlt.
    rewrite take_app_le by lia.
    destruct (decide (i = length ds)) as [->|]; [by rewrite firstn_all|].
    apply Hi. lia. }
  assert (tree w1 !! (cwd w ++ ds ++ [f]) ≠ Some Dir) as Hk.
  { destruct (Hg (cwd w ++ ds ++ [f])) as [->|(_ & _ & Hch)]; [done|].
    by apply not_chain_longer in Hch. }
  assert (∃ w2, os.open_w (join "/" (ds ++ [f])) w1 = (w2, Ok (cwd w ++ ds ++ [f])) ∧
            faults w2 = [] ∧
            tree w2 = <[cwd w ++ ds ++ [f] := File ""]> (tree w1)) as (w2 & Ho & Hq2 & Ht2).
  { rewrite open_w_quiet, Hr by auto.
    destruct (tree w1 !! (cwd w ++ ds ++ [f])) as [[|c]|]; [done|..]; eexists; split_and!;
      try done; simpl; auto. }
  rewrite (bind_ok _ _ _ _ _ Ho), finally_close.
  repeat match goal with
  | Hq : faults ?w = [], Ht : tree ?w = <[?k := File ?c]> _
    |- ∃ w', bind (os.write ?k ?s) _ ?w = _ =>
      rewrite (bind_ok _ _ _ _ _ (write_quiet k s c w Hq
                 ltac:(rewrite Ht; apply lookup_insert_eq)));
      let t := fresh "t" in let Ht' := fresh "Ht" in let Hq' := fresh "Hq" in
      set (t := set_tree _ w);
      assert (faults t = []) as Hq' by done;
      assert (tree t = <[k := File (c +:+ s)]> (tree w1)) as Ht'
        by (subst t; cbn [tree set_tree]; rewrite Ht; apply insert_insert_eq);
      clearbody t; clear Hq Ht
  end.
  rewrite (write_quiet _ _ _ _ ltac:(eassumption)
             ltac:(match goal with Ht : tree _ = _ |- _ => rewrite Ht; apply lookup_insert_eq end)).
  eauto.
Qed.

(** After a successful call the file reads back as the template. *)
Lemma create_stub_file_read (path title : string) (w w' : World) :
  create_stub_file path title w = (w', Ok tt) →
  read_file w' path = Some (template title).
Proof.
  intros (w1 & r1 & Hm & Hc & _ & H)%create_stub_file_inv.
  destruct r1 as [[]|e]; [|by destruct H].
  destruct H as [(e & ? & _)|(k & c & Hr & Hk & Ht & _ & [[_ ->]|?])]; [done| |done].
  unfold read_file, os.stat.
  rewrite (resolve_insert_file w1 w' path (template title) k) by done.
  by rewrite Ht, lookup_insert_eq.
Qed.

(** ** Runs over a list of entries *)

Lemma touched_refl c es t : touched c es t t.
Proof. intros k. by left. Qed.

Lemma touched_trans c e es t1 t2 t3 :
  touched c [e] t1 t2 → touched c es t2 t3 → touched c (e :: es) t1 t3.
Proof.
  intros H12 H23 k.
  destruct (H23 k) as [E2|[(E2 & E2' & e2 & Hin2 & Hch2)|(e2 & s2 & Hin2 & -> & E2 & Hp2 & Hn2)]].
  - rewrite E2.
    destruct (H12 k) as [E1|[(E1 & E1' & e1 & Hin1 & Hch1)|(e1 & s1 & Hin1 & -> & E1 & Hp1 & Hn1)]].
    + by left.
    + right. left. split_and!; [done..|]. apply list_elem_of_singleton in Hin1 as ->.
      exists e. split; [left|done].
    + right. right. apply list_elem_of_singleton in Hin1 as ->.
      exists e, s1. split_and!; [left|done..].
  - right. left. split_and!; [|done|exists e2; split; [by right|done]].
    destruct (H12 k) as [E1|[(E1 & E1' & _)|(e1 & s1 & _ & _ & E1 & _)]]; congruence.
  - right. right. exists e2, s2. split_and!; [by right|done..|].
    intros Hd. apply Hn2.
    destruct (H12 (leaf c e2)) as [E1|[(E1 & E1' & _)|(e1 & s1 & _ & _ & E1 & _ & Hn1)]];
      congruence.
Qed.

Lemma create_stub_touched (e : entry) (w w' : World) (r : result unit) :
  entry_ok e →
  create_stub_file (entry_path e) (e_title e) w = (w', r) →
  cwd w' = cwd w ∧ (faults w = [] → faults w' = []) ∧
  touched (cwd w) [e] (tree w) (tree w') ∧
  (r = Ok tt →
     tree w' !! leaf (cwd w) e = Some (File (template (e_title e))) ∧
     ∀ i, i ≤ length (e_dirs e) → tree w' !! (cwd w ++ take i (e_dirs e)) = Some Dir).
Proof.
  intros [Hp Hf] H. unfold entry_path in H.
  apply create_stub_plain_inv in H as (Hc & Hq & t1 & Hg & Hcases); [|done..].
  split_and!; [done..| |].
  - intros k. destruct Hcases as [(x & -> & ->)|(s & Hi & Hk & -> & Hpre & Hres)].
    + destruct (Hg k) as [?|(? & ? & ?)]; [by left|].
      right. left. split_and!; [done..|]. exists e. split; [left|done].
    + destruct (decide (k = cwd w ++ e_dirs e ++ [e_file e])) as [->|Hne].
      * right. right. exists e, s. rewrite lookup_insert_eq.
        split_and!; [left|done..|].
        intros Hd. apply Hk. by eapply grows_at_dir.
      * rewrite lookup_insert_ne by done.
        destruct (Hg k) as [?|(? & ? & ?)]; [by left|].
        right. left. split_and!; [done..|]. exists e. split; [left|done].
  - intros ->. destruct Hcases as [(x & ? & _)|(s & Hi & Hk & -> & Hpre & [[_ ->]|?])];
      [done| |done].
    split; [apply lookup_insert_eq|].
    intros i Hle. rewrite lookup_insert_ne; [by apply Hi|].
    unfold leaf. intros Heq%(inj (app (cwd w))).
    apply (f_equal length) in Heq. rewrite length_app, length_take in Heq.
    simpl in Heq. lia.
Qed.


Lemma run_touched (es : list entry) (w w' : World) (r : result unit) :
  Forall entry_ok es →
  run es w = (w', r) →
  cwd w' = cwd w ∧ (faults w = [] → faults w' = []) ∧
  touched (cwd w) es (tree w) (tree w').
Proof.
  intros Hok. revert w. induction Hok as [|e es He _ IH]; intros w.
  { intros [= <- <-]. split_and!; [done..|apply touched_refl]. }
  unfold run. cbn [for_each].
  intros [(w1 & [] & H1 & H)|(x & H1 & ->)]%bind_inv.
  - apply create_stub_touched in H1 as (Hc1 & Hq1 & Ht1 & _); [|done].
    apply IH in H as (Hc2 & Hq2 & Ht2). rewrite Hc1 in Ht2.
    split_and!; [congruence|auto|]. by eapply touched_trans.
  - apply create_stub_touched in H1 as (Hc1 & Hq1 & Ht1 & _); [|done].
    split_and!; [done..|]. eapply touched_trans; [done|apply touched_refl].
Qed.

Lemma leaf_inj (c : list string) (e e' : entry) (es : list entry) :
  NoDup (keys (e :: es)) → e' ∈ es → leaf c e ≠ leaf c e'.
Proof.
  unfold keys. rewrite fmap_cons. intros [Hnin _]%NoDup_cons Hin.
  unfold leaf. intros Heq%(inj (app c)). apply Hnin.
  rewrite Heq. by apply (list_elem_of_fmap_2 (λ e, e_dirs e ++ [e_file e])).
Qed.

(** After a successful run every entry has its directories and its file,
    and the file holds the document of the entry. *)
Lemma run_ok (es : list entry) (w w' : World) :
  Forall entry_ok es → NoDup (keys es) →
  run es w = (w', Ok tt) →
  ∀ e, e ∈ es →
    tree w' !! leaf (cwd w) e = Some (File (template (e_title e))) ∧
    ∀ i, i ≤ length (e_dirs e) → tree w' !! (cwd w ++ take i (e_dirs e)) = Some Dir.
Proof.
  intros Hok. revert w. induction Hok as [|e es He Hes IH]; intros w Hnd Hrun e' Hin.
  { by apply elem_of_nil in Hin. }
  unfold run in Hrun. cbn [for_each] in Hrun.
  apply bind_inv in Hrun as [(w1 & [] & H1 & H)|(x & _ & ?)]; [|done].
  apply create_stub_touched in H1 as (Hc1 & Hq1 & _ & Hdone); [|done].
  destruct (Hdone eq_refl) as [Hleaf Hdirs].
  apply elem_of_cons in Hin as [->|Hin].
  - pose proof (run_touched _ _ _ _ Hes H) as (_ & _ & Ht). rewrite Hc1 in Ht.
    split.
    + destruct (Ht (leaf (cwd w) e))
        as [->|[(E & _)|(e2 & s & Hin2 & Heq & _)]]; [done|congruence|].
      by apply (leaf_inj _ _ _ _ Hnd) in Heq.
    + intros i Hle. specialize (Hdirs i Hle).
      destruct (Ht (cwd w ++ take i (e_dirs e)))
        as [->|[(E & _)|(e2 & s & _ & _ & _ & _ & E)]]; [done|congruence..].
  - rewrite <- Hc1. apply (IH w1); [|done..].
    unfold keys in *. rewrite fmap_cons in Hnd. by apply NoDup_cons in Hnd as [_ ?].
Qed.

Lemma run_result {A} (m : M A) (w : World) (r : result A) :
  (m w).2 = r → m w = ((m w).1, r).
Proof. destruct (m w). simpl. by intros ->. Qed.

Lemma world_eq (w w' : World) :
  tree w' = tree w → cwd w' = cwd w → faults w' = faults w → w' = w.
Proof. destruct w, w'. simpl. by intros -> -> ->. Qed.

(** Two successful runs over the same entries, in whatever order and under
    whatever schedule, leave the same tree. *)
Lemma run_determined (es es' : list entry) (w1 w2 w1' w2' : World) :
  Forall entry_ok es → NoDup (keys es) →
  Forall entry_ok es' → NoDup (keys es') →
  (∀ e, e ∈ es ↔ e ∈ es') →
  tree w2 = tree w1 → cwd w2 = cwd w1 →
  run es w1 = (w1', Ok tt) → run es' w2 = (w2', Ok tt) →
  tree w2' = tree w1'.
Proof.
  intros Hok Hnd Hok' Hnd' Hsame Ht Hc H1 H2.
  pose proof (run_ok _ _ _ Hok Hnd H1) as Hfin1.
  pose proof (run_ok _ _ _ Hok' Hnd' H2) as Hfin2.
  pose proof (run_touched _ _ _ _ Hok H1) as (_ & _ & Ht1).
  pose proof (run_touched _ _ _ _ Hok' H2) as (_ & _ & Ht2).
  rewrite Hc in Hfin2, Ht2. rewrite Ht in Ht2.
  assert (∀ e k, e ∈ es → chain (cwd w1) (e_dirs e) k →
            tree w1' !! k = Some Dir ∧ tree w2' !! k = Some Dir) as Hchain.
  { intros e k Hin (j & Hj & ->). split.
    - apply (Hfin1 e Hin). lia.
    - apply (Hfin2 e); [by apply Hsame|lia]. }
  assert (∀ e, e ∈ es →
            tree w1' !! leaf (cwd w1) e = tree w2' !! leaf (cwd w1) e) as Hleaf.
  { intros e Hin. destruct (Hfin1 e Hin) as [-> _].
    destruct (Hfin2 e) as [-> _]; [by apply Hsame|done]. }
  apply map_eq. intros k.
  destruct (Ht1 k) as [E1|[(_ & _ & e & Hin & Hch)|(e & s & Hin & -> & _)]].
  - destruct (Ht2 k) as [E2|[(_ & _ & e & Hin & Hch)|(e & s & Hin & -> & _)]].
    + congruence.
    + apply Hsame in Hin. destruct (Hchain e k Hin Hch). congruence.
    + apply Hsame in Hin. symmetry. by apply Hleaf.
  - destruct (Hchain e k Hin Hch). congruence.
  - symmetry. by apply Hleaf.
Qed.

(** A run over entries that are all in place changes nothing. *)
Lemma run_in_place (es : list entry) (w w' : World) :
  Forall entry_ok es → NoDup (keys es) →
  (∀ e, e ∈ es →
     tree w !! leaf (cwd w) e = Some (File (template (e_title e))) ∧
     ∀ i, i ≤ length (e_dirs e) → tree w !! (cwd w ++ take i (e_dirs e)) = Some Dir) →
  run es w = (w', Ok tt) → tree w' = tree w.
Proof.
  intros Hok Hnd Hin H.
  pose proof (run_ok _ _ _ Hok Hnd H) as Hfin.
  pose proof (run_touched _ _ _ _ Hok H) as (_ & _ & Ht).
  apply map_eq. intros k.
  destruct (Ht k) as [E|[(E & _ & e & He & (i & Hi & ->))|(e & s & He & -> & _)]].
  - done.
  - destruct (Hin e He) as [_ Hd]. rewrite Hd in E by lia. done.
  - destruct (Hin e He) as [-> _]. by destruct (Hfin e He) as [-> _].
Qed.

Lemma compat_touched (c : list string) (es : list entry) (e : entry)
    (t t' : gmap (list string) node) :
  separated es → e ∈ es → compat c es t → touched c [e] t t' → compat c es t'.
Proof.
  intros Hsep Hin [Hc Hes] Ht. split.
  - destruct (Ht c) as [->|[(E & _)|(? & ? & _ & _ & _ & _ & E)]]; [done|congruence..].
  - intros e' Hin'. destruct (Hes e' Hin') as [Hdirs Hleaf]. split.
    + intros i Hi.
      destruct (Ht (c ++ take i (e_dirs e')))
        as [->|[(_ & -> & _)|(e0 & s & ->%list_elem_of_singleton & Heq & _)]].
      * by apply Hdirs.
      * by right.
      * unfold leaf in Heq. apply (inj (app c)) in Heq. by apply Hsep in Heq.
    + destruct (Ht (leaf c e'))
        as [->|[(_ & _ & e0 & ->%list_elem_of_singleton & (i & _ & Heq))|(e0 & s & _ & _ & -> & _)]].
      * done.
      * unfold leaf in Heq. apply (inj (app c)) in Heq. symmetry in Heq.
        by apply Hsep in Heq.
      * done.
Qed.

(** Without injected errors, a run over entries that nothing stands in the
    way of succeeds. *)
Lemma run_quiet (all es : list entry) (w : World) :
  Forall entry_ok all → separated all → es ⊆ all →
  faults w = [] → compat (cwd w) all (tree w) →
  ∃ w', run es w = (w', Ok tt).
Proof.
  intros Hok Hsep. revert w. induction es as [|e es IH]; intros w Hsub Hq Hcompat.
  { by exists w. }
  assert (e ∈ all) as Hin by (apply Hsub; left).
  assert (entry_ok e) as He by (by eapply Forall_forall in Hok).
  destruct Hcompat as [Hc Hes]. destruct (Hes e Hin) as [Hdirs Hleaf].
  destruct (create_stub_plain_quiet (e_dirs e) (e_file e) (e_title e) w) as [w1 H1];
    [apply He|apply He|done|done|done|done|].
  pose proof (create_stub_touched e w w1 (Ok tt) He H1) as (Hc1 & Hq1 & Ht1 & _).
  destruct (IH w1) as [w' H].
  - intros x Hx. apply Hsub. by right.
  - auto.
  - rewrite Hc1. by eapply compat_touched.
  - exists w'. unfold run. cbn [for_each]. fold (entry_path e).
    by rewrite (bind_ok _ _ _ _ _ H1).
Qed.

(** ** The catalog of [main] *)

Lemma bind_ext {A B} (m m' : M A) (k k' : A → M B) (w : World) :
  m w = m' w → (∀ a w1, k a w1 = k' a w1) → bind m k w = bind m' k' w.
Proof. intros Hm Hk. unfold bind. rewrite Hm. destruct (m' w) as [w1 [a|e]]; auto. Qed.

Lemma level_loop (l : nat) (ldir : string) (types : list (string * list string)) (w : World) :
  level_dir l = ldir →
  for_each types (λ '(category, names),
    for_each names (λ type_name,
      create_stub_file (stub_path ldir category type_name) type_name)) w
  = for_each (catalog_of l types)
      (λ x, create_stub_file (stub_path (level_dir x.1.1) x.1.2 x.2) x.2) w.
Proof.
  intros <-. unfold catalog_of. rewrite for_each_map.
  rewrite (for_each_nested types
    (λ c n, create_stub_file (stub_path (level_dir l) c n) n)).
  apply for_each_ext. by intros [c n] w1 _.
Qed.

Lemma catalog_paths :
  Forall (λ x, stub_path (level_dir x.1.1) x.1.2 x.2 = entry_path (entry_of x)
               ∧ catalog_path x = entry_path (entry_of x)) catalog.
Proof.
  assert (forallb (λ x,
            bool_decide (stub_path (level_dir x.1.1) x.1.2 x.2 = entry_path (entry_of x))
            && bool_decide (catalog_path x = entry_path (entry_of x))) catalog = true)
    as Hall by (by vm_compute).
  rewrite forallb_forall in Hall. apply Forall_forall. intros x Hx.
  apply list_elem_of_In, Hall, andb_true_iff in Hx as [H1 H2].
  by apply bool_decide_eq_true in H1, H2.
Qed.

(** [main] is the run over the entries of the catalog. *)
Lemma main_run (w : World) : main w = run main_entries w.
Proof.
  unfold main, run, main_entries.
  rewrite (for_each_map entry_of catalog).
  transitivity (for_each catalog
    (λ x, create_stub_file (stub_path (level_dir x.1.1) x.1.2 x.2) x.2) w).
  - unfold catalog.
    rewrite (for_each_app (catalog_of 1 level1_types)
               (catalog_of 2 level2_types ++ catalog_of 3 level3_types)).
    apply bind_ext; [exact (level_loop 1 "level1" level1_types w eq_refl)|].
    intros _ w1.
    rewrite (for_each_app (catalog_of 2 level2_types) (catalog_of 3 level3_types)).
    apply bind_ext; [exact (level_loop 2 "level2" level2_types w1 eq_refl)|].
    intros _ w2.
    exact (level_loop 3 "level3" level3_types w2 eq_refl).
  - apply for_each_ext. intros [[l c] n] w1 Hin.
    pose proof catalog_paths as Hall.
    rewrite Forall_forall in Hall. destruct (Hall _ Hin) as [Heq _].
    cbn [fst snd] in Heq |- *. rewrite Heq. reflexivity.
Qed.

Lemma entry_okb_ok (e : entry) : entry_okb e = true → entry_ok e.
Proof.
  unfold entry_okb, entry_ok, plain_path.
  rewrite !andb_true_iff, negb_true_iff, bool_decide_eq_false, forallb_forall.
  intros [[H1 H2] H3]. split_and!; [|done..].
  apply Forall_forall. intros x Hx. apply H1. by apply list_elem_of_In.
Qed.

Lemma main_entries_ok : Forall entry_ok main_entries.
Proof.
  apply Forall_forall. intros e Hin. apply entry_okb_ok.
  assert (forallb entry_okb main_entries = true) as Hall by (by vm_compute).
  rewrite forallb_forall in Hall. apply Hall. by apply list_elem_of_In.
Qed.

Lemma main_entries_nodup : NoDup (keys main_entries).
Proof. apply (bool_decide_unpack (NoDup (keys main_entries))). by vm_compute. Qed.

Lemma main_entries_depth (e : entry) : e ∈ main_entries → length (e_dirs e) = 3.
Proof.
  unfold main_entries. intros ([[l c] n] & -> & _)%list_elem_of_fmap. done.
Qed.

Lemma main_entries_separated : separated main_entries.
Proof.
  intros e e' i Hin Hin' Heq. apply (f_equal length) in Heq.
  rewrite length_take, length_app, (main_entries_depth e), (main_entries_depth e') in Heq
    by done.
  simpl in Heq. lia.
Qed.



(** The world after a successful run of [main] has nothing in the way. *)
Lemma main_ok_in_place (w w' : World) :
  main w = (w', Ok tt) →
  cwd w' = cwd w ∧
  ∀ e, e ∈ main_entries →
    tree w' !! leaf (cwd w') e = Some (File (template (e_title e))) ∧
    ∀ i, i ≤ length (e_dirs e) → tree w' !! (cwd w' ++ take i (e_dirs e)) = Some Dir.
Proof.
  rewrite main_run. intros Hrun.
  pose proof (run_touched _ _ _ _ main_entries_ok Hrun) as (Hc & _).
  split; [done|]. rewrite Hc.
  apply (run_ok _ _ _ main_entries_ok main_entries_nodup Hrun).
Qed.

Lemma in_place_compat (es : list entry) (w : World) :
  es ≠ [] →
  (∀ e, e ∈ es →
     tree w !! leaf (cwd w) e = Some (File (template (e_title e))) ∧
     ∀ i, i ≤ length (e_dirs e) → tree w !! (cwd w ++ take i (e_dirs e)) = Some Dir) →
  compat (cwd w) es (tree w).
Proof.
  intros Hne Hin. split.
  - destruct es as [|e es]; [done|].
    destruct (Hin e ltac:(left)) as [_ Hd]. specialize (Hd 0 ltac:(lia)).
    by rewrite take_0, app_nil_r in Hd.
  - intros e He. destruct (Hin e He) as [Hl Hd]. split.
    + intros i Hi. right. apply Hd. lia.
    + by rewrite Hl.
Qed.

Lemma empty_target_compat (es : list entry) (w : World) :
  Forall entry_ok es → empty_target w → compat (cwd w) es (tree w).
Proof.
  intros Hok [Hc Hnone]. split; [done|]. intros e He.
  assert (entry_ok e) as [[_ Hne] _] by (by eapply Forall_forall in Hok).
  split.
  - intros i Hi. left. apply Hnone. destruct (e_dirs e), i; simpl in *; (done || lia).
  - unfold leaf. rewrite Hnone; [done|]. by destruct (e_dirs e).
Qed.

Lemma empty_world_target : empty_target empty_world.
Proof.
  split; [done|]. intros k Hk. simpl. by rewrite lookup_singleton_ne.
Qed.

Lemma main_entries_dirs (e : entry) :
  e ∈ main_entries → ∃ l c, e_dirs e = ["PythonTypeGuide"; l; c].
Proof.
  unfold main_entries. intros ([[l c] n] & -> & _)%list_elem_of_fmap.
  by exists (level_dir l), c.
Qed.

Lemma makedirs_empty (w : World) :
  ∃ w' e, os.makedirs "" true w = (w', Raise e) ∧
          is_OSError e = true ∧ tree w' = tree w ∧
          (faults w = [] → e = FileNotFoundError).
Proof.
  unfold os.makedirs. change (String.length "") with 0. rewrite makedirs_rec_S.
  change (makedirs_head 0 (makedirs_split "").1 (makedirs_split "").2 true)
    with (ret (A := bool) false).
  rewrite (bind_ok _ _ w w false) by done.
  unfold makedirs_leaf, catch.
  destruct (os.mkdir "" w) as [w1 [[]|e]] eqn:Hm.
  - apply mkdir_inv in Hm as (_ & _ & [(e & ? & _)|(_ & k & Hk & _)]); done.
  - pose proof Hm as Hm'.
    apply mkdir_inv in Hm as (Hc & _ & [(e' & [= <-] & He & Ht)|(? & _)]); [|done].
    rewrite He. unfold bind, os.path_isdir.
    assert (os.stat w1 "" = None) as -> by done.
    rewrite bool_decide_false by done.
    exists w1, e. split_and!; [done..|].
    intros Hq. rewrite mkdir_quiet in Hm' by done. by injection Hm' as _ <-.
Qed.

(** ** Two worlds that differ in the contents of one file *)

Lemma blind_ret {A} k (a : A) : blind k (ret a).
Proof. intros w1 w2 w1' r Hs [= <- <-]. by exists w2. Qed.

Lemma blind_raise {A} k (e : exn) : blind k (raise (A := A) e).
Proof. intros w1 w2 w1' r Hs [= <- <-]. by exists w2. Qed.

Lemma blind_bind {A B} k (m : M A) (f : A → M B) :
  blind k m → (∀ a, blind k (f a)) → blind k (bind m f).
Proof.
  intros Hm Hf w1 w2 w1' r Hs [(w & a & H1 & H2)|(e & H1 & ->)]%bind_inv.
  - destruct (Hm _ _ _ _ Hs H1) as (w' & H1' & Hs').
    destruct (Hf a _ _ _ _ Hs' H2) as (w2' & H2' & Hs'').
    exists w2'. by rewrite (bind_ok _ _ _ _ _ H1').
  - destruct (Hm _ _ _ _ Hs H1) as (w' & H1' & Hs').
    exists w'. by rewrite (bind_raise _ _ _ _ _ H1').
Qed.

Lemma blind_catch {A} k (m : M A) (h : exn → M A) :
  blind k m → (∀ e, blind k (h e)) → blind k (catch m h).
Proof.
  intros Hm Hh w1 w2 w1' r Hs [(a & H1 & ->)|(w & e & H1 & H2)]%catch_inv.
  - destruct (Hm _ _ _ _ Hs H1) as (w' & H1' & Hs').
    exists w'. unfold catch. by rewrite H1'.
  - destruct (Hm _ _ _ _ Hs H1) as (w' & H1' & Hs').
    destruct (Hh e _ _ _ _ Hs' H2) as (w2' & H2' & Hs'').
    exists w2'. unfold catch. by rewrite H1'.
Qed.

Lemma namei_same_but k t1 t2 cur names :
  same_but k t1 t2 → os.namei t1 cur names = os.namei t2 cur names.
Proof.
  intros [Hoff (c1 & c2 & H1 & H2)]. revert cur.
  induction names as [|c rest IH]; intros cur; [done|]. simpl.
  destruct (decide (cur = k)) as [->|Hne].
  - by rewrite H1, H2.
  - rewrite (Hoff cur Hne). destruct (t2 !! cur) as [[|]|]; [|done..].
    repeat case_match; auto.
Qed.

Lemma resolve_sim k w1 w2 p : sim k w1 w2 → os.resolve w1 p = os.resolve w2 p.
Proof.
  intros (Hc & _ & Ht). unfold os.resolve. rewrite Hc.
  case_bool_decide; [done|]. by apply (namei_same_but k).
Qed.

Lemma stat_sim k w1 w2 p :
  sim k w1 w2 →
  (is_Some (os.stat w1 p) ↔ is_Some (os.stat w2 p)) ∧
  (os.stat w1 p = Some Dir ↔ os.stat w2 p = Some Dir).
Proof.
  intros Hs. unfold os.stat. rewrite (resolve_sim k w1 w2 p Hs).
  destruct (os.resolve w2 p) as [e|key]; [done|].
  destruct Hs as (_ & _ & Hoff & c1 & c2 & H1 & H2).
  destruct (decide (key = k)) as [->|Hne].
  - rewrite H1, H2. split; [by split; eauto|done].
  - by rewrite (Hoff key Hne).
Qed.

Lemma blind_path_exists k p : blind k (os.path_exists p).
Proof.
  intros w1 w2 w1' r Hs [= <- <-]. exists w2. split; [|done].
  unfold os.path_exists. do 2 f_equal. apply bool_decide_ext.
  symmetry. by apply (stat_sim k).
Qed.

Lemma blind_path_isdir k p : blind k (os.path_isdir p).
Proof.
  intros w1 w2 w1' r Hs [= <- <-]. exists w2. split; [|done].
  unfold os.path_isdir. do 2 f_equal. apply bool_decide_ext.
  symmetry. by apply (stat_sim k).
Qed.

Lemma blind_syscall k : blind k os.syscall.
Proof.
  intros w1 w2 w1' r (Hc & Hf & Ht). unfold os.syscall. rewrite <- Hf.
  destruct (faults w1) as [|b rest] eqn:Hf1; intros [= <- <-].
  - exists w2. split; [done|]. split_and!; [done|congruence|done].
  - exists (set_faults rest w2). split; [done|]. by split_and!.
Qed.

Lemma blind_mkdir k p : blind k (os.mkdir p).
Proof.
  unfold os.mkdir. apply blind_bind; [apply blind_syscall|]. intros _.
  intros w1 w2 w1' r Hs. rewrite (resolve_sim k w1 w2 _ Hs).
  destruct (os.resolve w2 (os.strip_trailing p)) as [e|key].
  { intros [= <- <-]. by exists w2. }
  destruct Hs as (Hc & Hf & Hoff & c1 & c2 & H1 & H2).
  destruct (decide (key = k)) as [->|Hne].
  - rewrite H1, H2. intros [= <- <-]. exists w2. split; [done|].
    split_and!; [done..|]. split; eauto.
  - rewrite (Hoff key Hne). destruct (tree w2 !! key) eqn:Hk.
    + intros [= <- <-]. exists w2. split; [done|].
      split_and!; [done..|]. split; eauto.
    + intros [= <- <-]. eexists. split; [done|].
      split_and!; [done..|]. split.
      * intros key' Hne'. simpl. destruct (decide (key = key')) as [<-|?].
        -- by rewrite !lookup_insert_eq.
        -- rewrite !lookup_insert_ne by done. by apply Hoff.
      * exists c1, c2. simpl. by rewrite !lookup_insert_ne.
Qed.

Lemma blind_makedirs k fuel name exist_ok : blind k (os.makedirs_rec fuel name exist_ok).
Proof.
  revert name. induction fuel as [|fuel IH]; intros name.
  { apply blind_raise. }
  rewrite makedirs_rec_S. apply blind_bind.
  - unfold makedirs_head. destruct (truthy _ && truthy _); [|apply blind_ret].
    apply blind_bind; [apply blind_path_exists|]. intros found.
    destruct (negb found); [|apply blind_ret].
    apply blind_bind; [|intros; apply blind_ret].
    apply blind_catch; [apply IH|].
    intros []; (apply blind_ret || apply blind_raise).
  - intros [|]; [apply blind_ret|].
    unfold makedirs_leaf. apply blind_catch; [apply blind_mkdir|].
    intros e. destruct (is_OSError e); [|apply blind_raise].
    apply blind_bind; [apply blind_path_isdir|]. intros d.
    destruct (negb exist_ok || negb d); [apply blind_raise|apply blind_ret].
Qed.

Lemma open_w_same (k : list string) (p : string) (w1 w2 wo : World) (f : list string) :
  sim k w1 w2 → os.resolve w1 p = inr k →
  os.open_w p w1 = (wo, Ok f) → os.open_w p w2 = (wo, Ok f).
Proof.
  intros Hs Hr. pose proof Hs as (Hc & Hf & Hoff & c1 & c2 & H1 & H2).
  unfold os.open_w. intros [(w1' & [] & Hsys & H)|(e & _ & ?)]%bind_inv; [|done].
  destruct (blind_syscall k _ _ _ _ Hs Hsys) as (w2' & Hsys' & Hs').
  rewrite (bind_ok _ _ _ _ _ Hsys').
  apply syscall_inv in Hsys as (Hfs & _). apply syscall_inv in Hsys' as (Hfs' & _).
  rewrite (resolve_ext _ _ _ Hfs), Hr in H.
  rewrite (resolve_ext _ _ _ Hfs'), <- (resolve_sim k w1 w2 p Hs), Hr.
  destruct Hfs as [Ht1 Hc1], Hfs' as [Ht2 Hc2]. destruct Hs' as (_ & Hf' & _).
  rewrite Ht1, H1 in H. rewrite Ht2, H2. injection H as <- <-. f_equal.
  apply world_eq; simpl; [|congruence..].
  rewrite ?Ht1, ?Ht2.
  apply map_eq. intros key. destruct (decide (k = key)) as [<-|Hne].
  - by rewrite !lookup_insert_eq.
  - rewrite !lookup_insert_ne by done. symmetry. by apply Hoff.
Qed.

(** ** Runs that abort *)


Lemma separated_chain (es : list entry) (c : list string) (e e' : entry) :
  separated es → e ∈ es → e' ∈ es → ¬ chain c (e_dirs e') (leaf c e).
Proof.
  intros Hsep He He' (i & _ & Heq). unfold leaf in Heq.
  apply (inj (app c)) in Heq. symmetry in Heq. by apply Hsep in Heq.
Qed.




(** ** The fuel of [makedirs] suffices *)






(** ** The scenario of the specification *)

(** A catalog of the single entry (1, primitive, int), run on the empty
    target, leaves the file [PythonTypeGuide/level1/primitive/int.md] with
    its document, the three directories above it, and nothing else. *)
Example single_entry_scenario :
  let w := (run [entry_of (1, "primitive", "int")] empty_world).1 in
  (run [entry_of (1, "primitive", "int")] empty_world).2 = Ok tt ∧
  read_file w "PythonTypeGuide/level1/primitive/int.md" = Some "# int

## Overview

## Usage

## Examples

## Related Types

" ∧
  dom (tree w) = {[ []; ["PythonTypeGuide"]; ["PythonTypeGuide"; "level1"];
                    ["PythonTypeGuide"; "level1"; "primitive"];
                    ["PythonTypeGuide"; "level1"; "primitive"; "int.md"] ]}.
Proof.
  split_and!.
  - vm_compute. reflexivity.
  - vm_compute. reflexivity.
  - assert (map_to_list (tree (run [entry_of (1, "primitive", "int")] empty_world).1)
            = [ (["PythonTypeGuide"; "level1"; "primitive"], Dir);
                (["PythonTypeGuide"], Dir);
                (["PythonTypeGuide"; "level1"; "primitive"; "int.md"], File (template "int"));
                (["PythonTypeGuide"; "level1"], Dir); ([], Dir) ]) as Hl.
    { vm_compute. reflexivity. }
    revert Hl. generalize (tree (run [entry_of (1, "primitive", "int")] empty_world).1).
    intros t Hl. apply set_eq. intros k. rewrite elem_of_dom. split.
    + intros [n Hn]. apply elem_of_map_to_list in Hn. rewrite Hl in Hn.
      rewrite !elem_of_cons, elem_of_nil in Hn.
      rewrite !elem_of_union, !elem_of_singleton.
      destruct Hn as [Hn|[Hn|[Hn|[Hn|[Hn|[]]]]]]; injection Hn as -> _; auto 10.
    + rewrite !elem_of_union, !elem_of_singleton.
      assert (∀ n, (k, n) ∈ map_to_list t → is_Some (t !! k)) as Hin.
      { intros n Hn. exists n. by apply elem_of_map_to_list. }
      rewrite Hl in Hin.
      intros [[[[-> | ->] | ->] | ->] | ->]; eapply Hin; repeat constructor.
Qed.


(** ** The directory of a path, whatever the path *)

Lemma rfind_neg_sep_free (s : string) :
  rfind posixpath.sep s = (-1)%Z → sep_free s = true.
Proof.
  induction s as [|a s IH]; [done|]. simpl.
  destruct (Z.leb_spec 0 (rfind posixpath.sep s)) as [Hle|Hlt].
  - destruct (rfind_nonneg_or posixpath.sep s); lia.
  - destruct (decide (a = posixpath.sep)); [done|]. intros _.
    rewrite bool_decide_false by done. simpl. apply IH.
    destruct (rfind_nonneg_or posixpath.sep s); lia.
Qed.

Lemma rfind_decomp (p : string) :
  (0 ≤ rfind posixpath.sep p)%Z →
  ∃ h t, p = h +:+ String posixpath.sep t ∧
         Z.of_nat (String.length h) = rfind posixpath.sep p ∧ sep_free t = true.
Proof.
  induction p as [|a p IH]; [simpl; lia|]. simpl.
  destruct (Z.leb_spec 0 (rfind posixpath.sep p)) as [Hle|Hlt].
  - intros _. destruct (IH Hle) as (h & t & -> & Hlen & Ht).
    exists (String a h), t. rewrite app_cons. split_and!; [done| |done].
    simpl String.length. lia.
  - destruct (decide (a = posixpath.sep)) as [->|]; [|lia]. intros _.
    exists "", p. split_and!; [done..|]. apply rfind_neg_sep_free.
    destruct (rfind_nonneg_or posixpath.sep p); lia.
Qed.

Lemma components_nonempty (c : ascii) (s : string) : components c s ≠ [].
Proof.
  destruct s as [|a s]; [done|]. simpl.
  destruct (decide (a = c)); [done|]. by destruct (components c s).
Qed.

Lemma components_app_sep_gen (h r : string) :
  components posixpath.sep (h +:+ String posixpath.sep r)
  = components posixpath.sep h ++ components posixpath.sep r.
Proof.
  induction h as [|a h IH]; [done|].
  rewrite app_cons. cbn [components].
  destruct (decide (a = posixpath.sep)).
  - by rewrite IH.
  - rewrite IH. pose proof (components_nonempty posixpath.sep h).
    by destruct (components posixpath.sep h).
Qed.

Lemma components_repeat (j : nat) :
  components posixpath.sep (str_repeat posixpath.sep j) = replicate (S j) "".
Proof. induction j as [|j IH]; [done|]. simpl. by rewrite IH. Qed.

Lemma components_app_repeat (h : string) (j : nat) :
  components posixpath.sep (h +:+ str_repeat posixpath.sep j)
  = components posixpath.sep h ++ replicate j "".
Proof.
  destruct j as [|j].
  - by rewrite app_nil_r', app_nil_r.
  - cbn [str_repeat]. by rewrite components_app_sep_gen, components_repeat.
Qed.

Lemma rstrip_decomp (s : string) :
  ∃ j, s = rstrip posixpath.sep s +:+ str_repeat posixpath.sep j.
Proof.
  induction s as [|a s [j IH]]; [by exists 0|]. simpl.
  destruct (rstrip posixpath.sep s) as [|b r] eqn:E.
  - destruct (decide (a = posixpath.sep)) as [->|].
    + exists (S j). rewrite app_nil_l' in *. simpl. by rewrite <- IH.
    + exists j. rewrite app_cons, !app_nil_l' in *. by rewrite <- IH.
  - exists j. rewrite app_cons. by rewrite <- IH.
Qed.

(** What [rstrip] returns is empty or ends in a character that is not the
    separator. *)
Lemma rstrip_end (s : string) :
  rstrip posixpath.sep s = "" ∨
  ∃ s' d, rstrip posixpath.sep s = s' +:+ d ∧ sep_free d = true ∧ d ≠ "".
Proof.
  induction s as [|a s IH]; [by left|]. simpl.
  destruct (rstrip posixpath.sep s) as [|b r] eqn:E.
  - destruct (decide (a = posixpath.sep)); [by left|]. right.
    exists "", (String a ""). split_and!; [done| |done].
    simpl. by rewrite bool_decide_false.
  - right. destruct IH as [?|(s' & d & Heq & Hd & Hne)]; [done|].
    exists (String a s'), d. by rewrite app_cons, Heq.
Qed.

Lemma rstrip_empty (s : string) :
  rstrip posixpath.sep s = "" → s = str_repeat posixpath.sep (String.length s).
Proof.
  intros H. destruct (rstrip_decomp s) as [j Hj]. rewrite H, app_nil_l' in Hj.
  rewrite Hj at 1. f_equal. rewrite Hj. clear. induction j; simpl; congruence.
Qed.

Lemma isabs_app (h x : string) : h ≠ "" → os.isabs (h +:+ x) = os.isabs h.
Proof. by destruct h. Qed.

Lemma namei_app (t : gmap (list string) node) (cur xs ys : list string) :
  os.namei t cur (xs ++ ys) =
    match os.namei t cur xs with
    | inr k => os.namei t k ys
    | inl e => inl e
    end.
Proof.
  revert cur. induction xs as [|c xs IH]; intros cur; [done|]. simpl.
  destruct (t !! cur) as [[|]|]; [|done..].
  destruct (bool_decide (c = "") || bool_decide (c = posixpath.curdir)); [apply IH|].
  destruct (bool_decide (c = posixpath.pardir)); apply IH.
Qed.

Lemma namei_skip (t : gmap (list string) node) (cur k : list string) (j : nat) :
  os.namei t cur (replicate j "") = inr k → k = cur.
Proof.
  induction j as [|j IH]; simpl; [by intros [= <-]|].
  destruct (t !! cur) as [[|]|]; [|done..]. apply IH.
Qed.

Lemma namei_last_dir (t : gmap (list string) node) (cur k : list string) (c : string) :
  os.namei t cur [c] = inr k → t !! cur = Some Dir.
Proof. simpl. by destruct (t !! cur) as [[|]|]. Qed.

Lemma namei_skip_ok (t : gmap (list string) node) (cur : list string) (j : nat) :
  t !! cur = Some Dir → os.namei t cur (replicate j "") = inr cur.
Proof. intros H. induction j as [|j IH]; simpl; [done|]. by rewrite H. Qed.

(** A path that resolves has its directory, when it names one. *)
Lemma resolve_dirname (w : World) (p : string) (k : list string) :
  os.resolve w p = inr k → posixpath.dirname p ≠ "" →
  os.stat w (posixpath.dirname p) = Some Dir.
Proof.
  intros Hr Hdir. unfold posixpath.dirname in *.
  destruct (rfind_nonneg_or posixpath.sep p) as [Hneg|[Hpos _]].
  { rewrite Hneg in Hdir. change (Z.to_nat (-1 + 1)) with 0 in Hdir.
    by rewrite str_take_0 in Hdir. }
  destruct (rfind_decomp p Hpos) as (h & t & -> & Hlen & Ht).
  rewrite <- Hlen in *. clear Hlen Hpos.
  replace (Z.to_nat (Z.of_nat (String.length h) + 1))
    with (String.length (h +:+ String posixpath.sep "")) in *
    by (rewrite app_length'; simpl; lia).
  replace (h +:+ String posixpath.sep t)
    with ((h +:+ String posixpath.sep "") +:+ t) in * by (by rewrite app_assoc').
  rewrite str_take_app in *.
  assert (truthy (h +:+ String posixpath.sep "") = true) as Htr.
  { apply bool_decide_eq_true. by destruct h. }
  rewrite Htr in *. cbn [andb] in *.
  unfold os.resolve in Hr. rewrite bool_decide_false in Hr by (by destruct h).
  rewrite app_assoc' in Hr. change (String posixpath.sep "" +:+ t) with (String posixpath.sep t) in Hr.
  rewrite components_app_sep_gen, (components_sep_free t Ht), namei_app in Hr.
  destruct (os.namei (tree w) _ (components posixpath.sep h)) as [e|k'] eqn:Hh; [done|].
  pose proof (namei_last_dir _ _ _ _ Hr) as Hk'.
  unfold os.stat, os.resolve.
  case_bool_decide as Hall.
  - (* the head has a character that is not the separator *)
    rewrite rstrip_app_one in *.
    destruct (rstrip_decomp h) as [j Hj].
    assert (rstrip posixpath.sep h ≠ "") as Hne.
    { intros Hem. apply Hall. apply rstrip_empty. by rewrite rstrip_app_one. }
    rewrite bool_decide_false by done. clear Hall Htr Hdir.
    set (hs := rstrip posixpath.sep h) in *. clearbody hs. subst h.
    rewrite components_app_repeat, namei_app in Hh.
    rewrite !app_assoc', isabs_app in Hh by done.
    destruct (os.namei (tree w) _ (components posixpath.sep hs)) as [e|k''] eqn:Hh'; [done|].
    apply namei_skip in Hh as ->. done.
  - rewrite bool_decide_false by (by destruct h).
    rewrite components_app_sep_gen, namei_app.
    assert (os.isabs (h +:+ String posixpath.sep "")
            = os.isabs (h +:+ String posixpath.sep t)) as -> by (by destruct h).
    rewrite Hh. simpl. by rewrite Hk'.
Qed.

(** [dirname] returns separators only, or a string that ends in a name. *)
Lemma dirname_shape (p : string) :
  posixpath.dirname p = str_repeat posixpath.sep (String.length (posixpath.dirname p)) ∨
  ∃ s d, posixpath.dirname p = s +:+ d ∧ sep_free d = true ∧ d ≠ "".
Proof.
  unfold posixpath.dirname.
  set (h := str_take (Z.to_nat (rfind posixpath.sep p + 1)) p).
  unfold truthy. case_bool_decide as Hne; cbn [andb].
  2: { left. by rewrite Hne. }
  case_bool_decide as Hall.
  2: { by left. }
  destruct (rstrip_end h) as [Hem|?]; [|by right].
  left. by rewrite Hem.
Qed.


Lemma split_tail_name (s d : string) :
  sep_free d = true → d ≠ "" →
  ∃ t, posixpath.split (s +:+ d) = (posixpath.dirname (s +:+ d), t) ∧ t ≠ "".
Proof.
  intros Hd Hne. eexists. split; [reflexivity|].
  destruct (rfind_nonneg_or posixpath.sep (s +:+ d)) as [Hneg|[Hpos _]].
  { rewrite Hneg. change (Z.to_nat (-1 + 1)) with 0. rewrite str_drop_0. by destruct s, d. }
  destruct (rfind_decomp _ Hpos) as (h & t & Heq & Hlen & Ht).
  rewrite <- Hlen, Heq.
  replace (Z.to_nat (Z.of_nat (String.length h) + 1))
    with (String.length (h +:+ String posixpath.sep "")) by (rewrite app_length'; simpl; lia).
  replace (h +:+ String posixpath.sep t)
    with ((h +:+ String posixpath.sep "") +:+ t) by (by rewrite app_assoc').
  rewrite str_drop_app. intros ->.
  pose proof (rstrip_app_keep s d Hd Hne) as Hkeep.
  rewrite Heq, rstrip_app_one in Hkeep.
  pose proof (rstrip_length posixpath.sep h) as Hlen'.
  rewrite Hkeep, app_length' in Hlen'. simpl in Hlen'. lia.
Qed.

Lemma str_take_all (s : string) : str_take (String.length s) s = s.
Proof. induction s as [|a s IH]; simpl; [done|]. by rewrite IH. Qed.

Lemma str_drop_all (s : string) : str_drop (String.length s) s = "".
Proof. induction s as [|a s IH]; simpl; done. Qed.

Lemma str_repeat_length (c : ascii) (m : nat) : String.length (str_repeat c m) = m.
Proof. induction m as [|m IH]; simpl; [done|]. by rewrite IH. Qed.

Lemma str_repeat_snoc (c : ascii) (m : nat) :
  str_repeat c (S m) = str_repeat c m +:+ String c "".
Proof.
  induction m as [|m IH]; [done|].
  change (str_repeat c (S (S m))) with (String c (str_repeat c (S m))).
  rewrite IH at 1. by rewrite <- app_cons.
Qed.

Lemma split_repeat (m : nat) :
  posixpath.split (str_repeat posixpath.sep m) = (str_repeat posixpath.sep m, "").
Proof.
  destruct m as [|m]; [done|].
  unfold posixpath.split.
  assert (rfind posixpath.sep (str_repeat posixpath.sep (S m)) = Z.of_nat m) as ->.
  { rewrite str_repeat_snoc, rfind_app_sep by done. by rewrite str_repeat_length. }
  replace (Z.to_nat (Z.of_nat m + 1))
    with (String.length (str_repeat posixpath.sep (S m)))
    by (rewrite str_repeat_length; lia).
  rewrite str_take_all, str_drop_all, str_repeat_length.
  rewrite (bool_decide_false (_ ≠ _)) by (by intros []).
  by rewrite andb_false_r.
Qed.



(** ** Paths derived by [stub_path] *)

Lemma app_inj_r (s s' u : string) : s +:+ u = s' +:+ u → s = s'.
Proof.
  revert s'. induction s as [|a s IH]; intros [|a' s'] H.
  - done.
  - apply (f_equal String.length) in H. rewrite app_cons, app_nil_l' in H.
    simpl in H. rewrite app_length' in H. lia.
  - apply (f_equal String.length) in H. rewrite app_cons, app_nil_l' in H.
    simpl in H. rewrite app_length' in H. lia.
  - rewrite !app_cons in H. injection H as -> H. f_equal. by apply IH.
Qed.

Lemma app_inj_l (u s s' : string) : u +:+ s = u +:+ s' → s = s'.
Proof. induction u as [|a u IH]; [done|]. rewrite !app_cons. intros [= H]. auto. Qed.

Lemma sep_free_app (s t : string) : sep_free (s +:+ t) = sep_free s && sep_free t.
Proof.
  induction s as [|a s IH]; [done|]. rewrite app_cons. cbn [sep_free].
  by rewrite IH, andb_assoc.
Qed.

Lemma lower_ascii_sep (c : ascii) :
  bool_decide (lower_ascii c = posixpath.sep) = bool_decide (c = posixpath.sep).
Proof. by destruct c as [[] [] [] [] [] [] [] []]. Qed.

Lemma sep_free_lower (s : string) : sep_free (lower s) = sep_free s.
Proof.
  induction s as [|a s IH]; [done|]. cbn [lower sep_free].
  by rewrite lower_ascii_sep, IH.
Qed.

Lemma isabs_sep_free (s : string) : sep_free s = true → os.isabs s = false.
Proof.
  destruct s as [|a s]; [done|]. cbn [sep_free os.isabs].
  intros [Ha _]%andb_true_iff. by apply negb_true_iff in Ha.
Qed.

Lemma parse_parts_single (s : string) :
  sep_free s = true → s ≠ "" → s ≠ "." → pathlib.parse_parts s = [s].
Proof.
  intros Hs H1 H2. unfold pathlib.parse_parts.
  rewrite components_sep_free by done.
  by rewrite filter_cons_True, filter_nil.
Qed.

Lemma truediv_single (p : pathlib.PurePath) (s : string) :
  sep_free s = true → s ≠ "" → s ≠ "." →
  pathlib.truediv p s = pathlib.mkPath (pathlib.anchored p) (pathlib.parts p ++ [s]).
Proof.
  intros Hs H1 H2. unfold pathlib.truediv.
  by rewrite isabs_sep_free, parse_parts_single.
Qed.

Lemma stub_file_name (name : string) :
  sep_free name = true → plain (lower name +:+ ".md") = true.
Proof.
  intros Hn. unfold plain, truthy.
  rewrite bool_decide_true, !bool_decide_false;
    [by rewrite sep_free_app, sep_free_lower, Hn|..];
    destruct name as [|a [|b [|c name]]]; cbn [lower];
    rewrite ?app_cons, ?app_nil_l'; done.
Qed.

Lemma stub_path_join (level category name : string) :
  plain level = true → plain category = true → sep_free name = true →
  stub_path level category name
  = join "/" ["PythonTypeGuide"; level; category; lower name +:+ ".md"].
Proof.
  intros (Hl & Hl1 & Hl2 & _)%plain_inv (Hc & Hc1 & Hc2 & _)%plain_inv Hn.
  destruct (plain_inv _ (stub_file_name name Hn)) as (Hf & Hf1 & Hf2 & _).
  unfold stub_path. rewrite !truediv_single by done. done.
Qed.


(** ** The writes of a call, without injected errors *)




Lemma namei_blocked (t : gmap (list string) node) (cur names : list string)
    (i : nat) (c : string) :
  Forall (λ d, plain d = true) names → i < length names →
  t !! (cur ++ take i names) = Some (File c) →
  (∀ j, j < i → t !! (cur ++ take j names) = Some Dir) →
  os.namei t cur names = inl NotADirectoryError.
Proof.
  intros Hn. revert cur i. induction Hn as [|a names Ha Hn IH]; intros cur i Hi Hfile Hdirs.
  { simpl in Hi. lia. }
  rewrite namei_plain_step by done. destruct i as [|i].
  - rewrite take_0, app_nil_r in Hfile. by rewrite Hfile.
  - pose proof (Hdirs 0 ltac:(lia)) as H0. rewrite take_0, app_nil_r in H0. rewrite H0.
    apply (IH _ i).
    + simpl in Hi. lia.
    + by rewrite <- app_assoc.
    + intros j Hj. rewrite <- app_assoc. apply (Hdirs (S j)). lia.
Qed.

(** A file on the way: [makedirs] fails and leaves the world as it was.  The
    error is [FileExistsError] when the file sits where the last directory
    goes, [NotADirectoryError] when it sits above. *)
Lemma makedirs_blocked (fuel : nat) (ds : list string) (w : World) (i : nat) (c : string) :
  plain_path ds → length ds ≤ fuel → faults w = [] →
  0 < i ≤ length ds →
  tree w !! (cwd w ++ take i ds) = Some (File c) →
  (∀ j, j < i → tree w !! (cwd w ++ take j ds) = Some Dir) →
  os.makedirs_rec fuel (join "/" ds) true w
  = (w, Raise (if decide (i = length ds) then FileExistsError else NotADirectoryError)).
Proof.
  revert ds w i. induction fuel as [|fuel IH]; intros ds w i Hp Hlen Hq Hi Hfile Hdirs.
  { lia. }
  destruct (exists_last (proj2 Hp)) as (ds' & d & ->).
  rewrite makedirs_rec_S, makedirs_split_join by done. cbn [fst snd].
  destruct (plain_path_snoc _ _ Hp) as [Hds' Hd].
  apply plain_inv in Hd as (Hd & Hdne & Hdot & _).
  rewrite length_app in *. simpl in Hlen, Hi.
  assert (truthy d = true) as Htd by (by apply bool_decide_eq_true).
  destruct (decide (i = length ds' + 1)) as [->|Hne].
  - assert (∀ j, j ≤ length ds' → tree w !! (cwd w ++ take j ds') = Some Dir) as Hall.
    { intros j Hj. specialize (Hdirs j ltac:(lia)). by rewrite take_app_le in Hdirs by lia. }
    assert (makedirs_head fuel (join "/" ds') d true w = (w, Ok false)) as Hh.
    { unfold makedirs_head. destruct ds' as [|x l]; [done|].
      assert (plain_path (x :: l)) as Hp' by done.
      assert (truthy (join "/" (x :: l)) = true) as ->.
      { apply bool_decide_eq_true. by apply join_plain_head. }
      rewrite Htd. cbn [andb]. unfold bind at 1. unfold os.path_exists.
      rewrite stat_plain_ok by (done || intros; apply Hall; lia).
      specialize (Hall (length (x :: l)) ltac:(lia)). rewrite firstn_all in Hall.
      rewrite Hall, bool_decide_true by eauto. done. }
    rewrite (bind_ok _ _ _ _ _ Hh).
    replace (length ds' + 1) with (length (ds' ++ [d])) in Hfile, Hdirs
      by (rewrite length_app; simpl; lia).
    rewrite firstn_all in Hfile.
    unfold makedirs_leaf, catch.
    rewrite mkdir_quiet, strip_trailing_join, resolve_plain by (done || apply Hp).
    rewrite namei_plain_ok, Hfile by (done || apply Hp). cbn [is_OSError].
    unfold bind, os.path_isdir. rewrite stat_plain_ok, Hfile by done.
    rewrite bool_decide_false by done. by rewrite decide_True.
  - assert (i ≤ length ds') as Hle by lia.
    assert (ds' ≠ []) as Hne' by (intros ->; simpl in Hle; lia).
    assert (plain_path ds') as Hp' by done.
    rewrite take_app_le in Hfile by lia.
    assert (∀ j, j < i → tree w !! (cwd w ++ take j ds') = Some Dir) as Hdirs'.
    { intros j Hj. specialize (Hdirs j Hj). by rewrite take_app_le in Hdirs by lia. }
    assert (os.resolve w (join "/" (ds' ++ [d])) = inl NotADirectoryError) as Hres.
    { rewrite resolve_plain by apply Hp.
      apply (namei_blocked _ _ _ i c); [apply Hp|rewrite length_app; simpl; lia| |done].
      by rewrite take_app_le by lia. }
    assert (makedirs_leaf (join "/" (ds' ++ [d])) true w = (w, Raise NotADirectoryError))
      as Hleaf.
    { unfold makedirs_leaf, catch.
      rewrite mkdir_quiet, strip_trailing_join, Hres by (done || apply Hp).
      cbn [is_OSError]. unfold bind, os.path_isdir, os.stat. rewrite Hres.
      by rewrite bool_decide_false. }
    rewrite decide_False by (simpl; lia).
    unfold makedirs_head.
    assert (truthy (join "/" ds') = true) as ->.
    { apply bool_decide_eq_true. by apply join_plain_head. }
    rewrite Htd. cbn [andb]. unfold bind, catch, os.path_exists.
    destruct (decide (i = length ds')) as [->|Hlt].
    + rewrite firstn_all in Hfile.
      rewrite stat_plain_ok, Hfile by done.
      rewrite bool_decide_true by eauto. cbn [negb]. unfold ret at 1.
      exact Hleaf.
    + assert (os.stat w (join "/" ds') = None) as ->.
      { unfold os.stat. rewrite resolve_plain by apply Hp'.
        by rewrite (namei_blocked _ _ _ i c) by (done || lia). }
      rewrite bool_decide_false by (by intros [? ?]). cbn [negb].
      specialize (IH ds' w i Hp' ltac:(lia) Hq ltac:(lia) Hfile Hdirs').
      rewrite decide_False in IH by done.
      by rewrite IH.
Qed.

(** [makedirs] of a plain path, with the fuel [os.makedirs] gives it. *)
Lemma makedirs_join_blocked (ds : list string) (w : World) (i : nat) (c : string) :
  plain_path ds → faults w = [] → 0 < i ≤ length ds →
  tree w !! (cwd w ++ take i ds) = Some (File c) →
  (∀ j, j < i → tree w !! (cwd w ++ take j ds) = Some Dir) →
  os.makedirs (join "/" ds) true w
  = (w, Raise (if decide (i = length ds) then FileExistsError else NotADirectoryError)).
Proof.
  intros Hp. apply makedirs_blocked; [done|]. by apply join_length_plain, Hp.
Qed.

(** A successful call on a plain path found the working directory, found
    no file on the way, and no directory at the target. *)
Lemma create_stub_plain_ok_inv (ds : list string) (f title : string) (w w' : World) :
  plain_path ds → plain f = true →
  create_stub_file (join "/" (ds ++ [f])) title w = (w', Ok tt) →
  tree w !! cwd w = Some Dir ∧
  (∀ i, 0 < i ≤ length ds → dir_or_absent (tree w !! (cwd w ++ take i ds))) ∧
  tree w !! (cwd w ++ ds ++ [f]) ≠ Some Dir.
Proof.
  intros Hp Hf H.
  destruct (create_stub_plain_inv ds f title w w' (Ok tt) Hp Hf H)
    as (_ & _ & t1 & Hg & [(e & ? & _)|(c & Hi & Hleaf & _)]); [done|].
  split_and!.
  - specialize (Hi 0 ltac:(lia)). rewrite take_0, app_nil_r in Hi.
    destruct (Hg (cwd w)) as [<-|(_ & _ & j & Hj & Heq)]; [done|].
    apply (f_equal length) in Heq. rewrite length_app, length_take in Heq. lia.
  - intros i Hi'. specialize (Hi i ltac:(lia)).
    destruct (Hg (cwd w ++ take i ds)) as [<-|(-> & _)]; [by right|by left].
  - intros Hd. apply Hleaf. by apply (grows_at_dir _ _ _ _ Hg).
Qed.

Lemma chain_dec (c ds k : list string) : chain c ds k ∨ ¬ chain c ds k.
Proof.
  destruct (decide (k ∈ (λ i, c ++ take i ds) <$> seq 1 (length ds))) as [Hin|Hnin].
  - left. apply list_elem_of_fmap in Hin as (i & -> & Hi).
    apply elem_of_seq in Hi. exists i. split; [lia|done].
  - right. intros (i & Hi & ->). apply Hnin.
    apply list_elem_of_fmap. exists i. split; [done|]. apply elem_of_seq. lia.
Qed.

(** ** Runs: what a successful run says of the tree it began in *)

Lemma touched_dir_back (c : list string) (es : list entry)
    (t t' : gmap (list string) node) (k : list string) :
  touched c es t t' → dir_or_absent (t' !! k) → dir_or_absent (t !! k).
Proof.
  intros Ht Hk. destruct (Ht k) as [<-|[(-> & _)|(e & s & _ & _ & Hs & _)]].
  - done.
  - by left.
  - rewrite Hs in Hk. by destruct Hk.
Qed.

Lemma touched_dir_keeps (c : list string) (es : list entry)
    (t t' : gmap (list string) node) (k : list string) :
  touched c es t t' → t !! k = Some Dir → t' !! k = Some Dir.
Proof.
  intros Ht Hk. destruct (Ht k) as [->|[(E & _)|(e & s & _ & _ & _ & _ & E)]];
    [done|congruence|done].
Qed.

Lemma run_ok_compat (es : list entry) (w w' : World) :
  Forall entry_ok es → es ≠ [] →
  run es w = (w', Ok tt) → compat (cwd w) es (tree w).
Proof.
  intros Hok. revert w. induction Hok as [|e es He Hes IH]; intros w Hne Hrun; [done|].
  unfold run in Hrun. cbn [for_each] in Hrun.
  apply bind_inv in Hrun as [(w1 & [] & H1 & Hrest)|(x & _ & ?)]; [|done].
  destruct (create_stub_touched e w w1 (Ok tt) He H1) as (Hc & _ & Ht & _).
  destruct He as [Hp Hf]. unfold entry_path in H1.
  destruct (create_stub_plain_ok_inv _ _ _ _ _ Hp Hf H1) as (Hcwd & Hdirs & Hleaf).
  split; [done|]. intros e' [->|Hin]%elem_of_cons; [done|].
  assert (es ≠ []) as Hne' by (intros ->; by apply elem_of_nil in Hin).
  destruct (IH w1 Hne' Hrest) as [_ Hall]. rewrite Hc in Hall.
  destruct (Hall e' Hin) as [Hd' Hl']. split.
  - intros i Hi. by apply (touched_dir_back _ _ _ _ _ Ht), Hd'.
  - intros Hd. apply Hl'. by apply (touched_dir_keeps _ _ _ _ _ Ht).
Qed.

(** The file of an entry holds its document at the end of a successful run
    when no later entry has the same path. *)
Lemma run_last (pre post : list entry) (e : entry) (w w' : World) :
  Forall entry_ok (pre ++ e :: post) →
  (∀ e', e' ∈ post → e_dirs e' ++ [e_file e'] ≠ e_dirs e ++ [e_file e]) →
  run (pre ++ e :: post) w = (w', Ok tt) →
  cwd w' = cwd w ∧
  tree w' !! leaf (cwd w) e = Some (File (template (e_title e))) ∧
  ∀ i, i ≤ length (e_dirs e) → tree w' !! (cwd w ++ take i (e_dirs e)) = Some Dir.
Proof.
  rewrite Forall_app, Forall_cons. intros (Hpre & He & Hpost) Hlast Hrun.
  unfold run in Hrun. rewrite for_each_app in Hrun.
  apply bind_inv in Hrun as [(w1 & [] & H1 & Hrun)|(x & _ & ?)]; [|done].
  cbn [for_each] in Hrun.
  apply bind_inv in Hrun as [(w2 & [] & H2 & Hrun)|(x & _ & ?)]; [|done].
  destruct (run_touched pre w w1 (Ok tt) Hpre H1) as (Hc1 & _ & _).
  destruct (create_stub_touched e w1 w2 (Ok tt) He H2) as (Hc2 & _ & _ & Hdone).
  destruct (Hdone eq_refl) as [Hfile Hdirs].
  destruct (run_touched post w2 w' (Ok tt) Hpost Hrun) as (Hc3 & _ & Ht).
  rewrite Hc1 in *. rewrite Hc2 in Ht. split_and!.
  - congruence.
  - destruct (Ht (leaf (cwd w) e)) as [->|[(E & _)|(e' & s & Hin & Heq & _)]].
    + done.
    + congruence.
    + exfalso. apply (Hlast e' Hin). unfold leaf in Heq. by apply app_inv_head in Heq.
  - intros i Hi. by apply (touched_dir_keeps _ _ _ _ _ Ht), Hdirs.
Qed.

Lemma template_inj (t1 t2 : string) : template t1 = template t2 → t1 = t2.
Proof. unfold template. intros H. apply app_inj_l in H. by apply app_inj_r in H. Qed.

(** ** A second run *)

Lemma compat_touched_all (c : list string) (es : list entry)
    (t t' : gmap (list string) node) :
  separated es → compat c es t → touched c es t t' → compat c es t'.
Proof.
  intros Hsep [Hc Hall] Ht. split.
  - by apply (touched_dir_keeps _ _ _ _ _ Ht).
  - intros e Hin. destruct (Hall e Hin) as [Hd Hl]. split.
    + intros i Hi.
      destruct (Ht (c ++ take i (e_dirs e)))
        as [->|[(_ & -> & _)|(e' & s & Hin' & Heq & _)]].
      * by apply Hd.
      * by right.
      * exfalso. unfold leaf in Heq. apply app_inv_head in Heq.
        by apply (Hsep e' e i Hin' Hin).
    + destruct (Ht (leaf c e)) as [->|[(_ & _ & e' & Hin' & Hch)|(e' & s & _ & _ & -> & _)]].
      * done.
      * exfalso. by apply (separated_chain es c e e' Hsep Hin Hin').
      * done.
Qed.

(** A run that succeeds from where another run has stopped ends where it
    would have ended from the start. *)
Lemma run_again (es : list entry) (w w1 wa wb : World) (r : result unit) :
  Forall entry_ok es → NoDup (keys es) →
  run es w = (w1, r) →
  run es (set_faults [] w) = (wa, Ok tt) →
  run es (set_faults [] w1) = (wb, Ok tt) →
  wb = wa.
Proof.
  intros Hok Hnd H1 Ha Hb.
  destruct (run_touched _ _ _ _ Hok H1) as (Hc1 & _ & Ht1).
  destruct (run_touched _ _ _ _ Hok Ha) as (Hca & Hqa & Hta).
  destruct (run_touched _ _ _ _ Hok Hb) as (Hcb & Hqb & Htb).
  pose proof (run_ok _ _ _ Hok Hnd Ha) as Hoka.
  pose proof (run_ok _ _ _ Hok Hnd Hb) as Hokb.
  cbn [cwd tree faults set_faults] in *. rewrite Hc1 in *.
  assert (∀ e, e ∈ es → tree wb !! leaf (cwd w) e = tree wa !! leaf (cwd w) e) as Hleaf.
  { intros e Hin. destruct (Hoka e Hin) as [-> _]. by destruct (Hokb e Hin) as [-> _]. }
  assert (∀ e k, e ∈ es → chain (cwd w) (e_dirs e) k → tree wb !! k = tree wa !! k) as Hdir.
  { intros e k Hin (i & Hi & ->).
    destruct (Hoka e Hin) as [_ Ha']. destruct (Hokb e Hin) as [_ Hb'].
    by rewrite Ha', Hb' by lia. }
  apply world_eq; [|congruence|by rewrite Hqa, Hqb].
  apply map_eq. intros k.
  destruct (Hta k) as [Ea|[(_ & _ & e & Hin & Hch)|(e & s & Hin & -> & _)]];
    [|by apply (Hdir e)|by apply Hleaf].
  destruct (Htb k) as [Eb|[(_ & _ & e & Hin & Hch)|(e & s & Hin & -> & _)]];
    [|by apply (Hdir e)|by apply Hleaf].
  destruct (Ht1 k) as [E1|[(_ & _ & e & Hin & Hch)|(e & s & Hin & -> & _)]];
    [congruence|by apply (Hdir e)|by apply Hleaf].
Qed.

(** ** [makedirs] of a directory that exists, whatever the schedule *)

Lemma syscall_spec (w : World) :
  ∃ r, os.syscall w = (set_faults (tail (faults w)) w, r) ∧ (r = Ok tt ∨ r = Raise OSError).
Proof.
  unfold os.syscall. destruct w as [t c [|[] fs]]; cbn; eauto.
Qed.

Lemma makedirs_leaf_there (name : string) (w : World) :
  os.stat w name = Some Dir → os.strip_trailing name = name →
  makedirs_leaf name true w = (set_faults (tail (faults w)) w, Ok tt).
Proof.
  intros Hst Hstrip. unfold makedirs_leaf, catch, os.mkdir, bind.
  assert (os.stat (set_faults (tail (faults w)) w) name = Some Dir) as Hst' by done.
  destruct (syscall_spec w) as (r & -> & [-> | ->]).
  - rewrite Hstrip. unfold os.stat in Hst.
    assert (os.resolve (set_faults (tail (faults w)) w) name = os.resolve w name) as -> by done.
    destruct (os.resolve w name) as [e|k]; [done|].
    cbn [tree set_faults]. rewrite Hst. cbn [is_OSError].
    unfold os.path_isdir. rewrite Hst'. by rewrite bool_decide_true.
  - cbn [is_OSError]. unfold os.path_isdir. rewrite Hst'. by rewrite bool_decide_true.
Qed.

Lemma makedirs_there (path : string) (w : World) :
  os.stat w (posixpath.dirname path) = Some Dir →
  os.makedirs (posixpath.dirname path) true w = (set_faults (tail (faults w)) w, Ok tt).
Proof.
  intros Hst. unfold os.makedirs. rewrite makedirs_rec_S.
  destruct (dirname_shape path) as [Hall|(s & d & Heq & Hd & Hne)].
  - assert (makedirs_split (posixpath.dirname path) = (posixpath.dirname path, "")) as ->.
    { unfold makedirs_split. rewrite Hall, split_repeat. simpl. by rewrite split_repeat. }
    cbn [fst snd]. unfold makedirs_head. rewrite andb_false_r.
    rewrite (bind_ok _ _ w w false) by done.
    apply makedirs_leaf_there; [done|].
    unfold os.strip_trailing. by rewrite bool_decide_true.
  - destruct (split_tail_name s d Hd Hne) as (t & Hsplit & Ht).
    assert (makedirs_split (posixpath.dirname path)
            = (posixpath.dirname (posixpath.dirname path), t)) as ->.
    { unfold makedirs_split. rewrite Heq, Hsplit.
      unfold truthy. by rewrite bool_decide_true. }
    cbn [fst snd].
    assert (makedirs_head (String.length (posixpath.dirname path))
              (posixpath.dirname (posixpath.dirname path)) t true w = (w, Ok false)) as Hhead.
    { unfold makedirs_head. destruct (truthy _ && truthy _) eqn:Hb; [|done].
      apply andb_true_iff in Hb as [Hb _]. apply bool_decide_eq_true in Hb.
      unfold bind, os.path_exists.
      unfold os.stat in Hst. destruct (os.resolve w _) as [e|k] eqn:Hr in Hst; [done|].
      rewrite (resolve_dirname w _ k Hr Hb). by rewrite bool_decide_true. }
    rewrite (bind_ok _ _ _ _ _ Hhead).
    apply makedirs_leaf_there; [done|].
    unfold os.strip_trailing. case_bool_decide; [done|].
    rewrite Heq. by apply rstrip_app_keep.
Qed.

(** ** The errors a call can raise *)





(** ** A path that ends in a separator *)

Lemma resolve_trailing_sep (w : World) (p : string) (k : list string) :
  os.resolve w (p +:+ "/") = inr k → tree w !! k = Some Dir.
Proof.
  unfold os.resolve. case_bool_decide; [done|].
  change "/" with (String posixpath.sep "").
  rewrite components_app_sep_gen, namei_app.
  destruct (os.namei _ _ (components posixpath.sep p)) as [e|k0]; [done|].
  change (components posixpath.sep "") with [""]. simpl.
  destruct (tree w !! k0) as [[|c]|] eqn:Hk; [|done..].
  by intros [= <-].
Qed.

(** ** The catalog of [main]: its first entry and its directories *)

Lemma main_entries_first :
  ∃ f t rest, main_entries = mkEntry first_dirs f t :: rest ∧ plain f = true.
Proof. eexists _, _, _. split; vm_compute; reflexivity. Qed.

Lemma main_chain_dirs (e : entry) (i : nat) :
  e ∈ main_entries → 0 < i ≤ length (e_dirs e) → take i (e_dirs e) ∈ main_dirs.
Proof.
  intros Hin Hi. rewrite (main_entries_depth e Hin) in Hi.
  assert (forallb (λ e, forallb (λ i, bool_decide (take i (e_dirs e) ∈ main_dirs)) [1; 2; 3])
            main_entries = true) as Hall by (vm_compute; reflexivity).
  rewrite forallb_forall in Hall. apply list_elem_of_In, Hall in Hin.
  rewrite forallb_forall in Hin.
  assert (In i [1; 2; 3]) as Hi' by (simpl; lia).
  by apply Hin, bool_decide_eq_true in Hi'.
Qed.

Lemma main_dirs_chain (d : list string) :
  d ∈ main_dirs → ∃ e i, e ∈ main_entries ∧ i ≤ length (e_dirs e) ∧ d = take i (e_dirs e).
Proof.
  intros Hin.
  assert (forallb (λ d, existsb (λ e, existsb (λ i, bool_decide (d = take i (e_dirs e)))
                                        [1; 2; 3]) main_entries) main_dirs = true)
    as Hall by (vm_compute; reflexivity).
  rewrite forallb_forall in Hall. apply list_elem_of_In, Hall in Hin.
  apply existsb_exists in Hin as (e & He & Hi).
  apply existsb_exists in Hi as (i & Hi & Heq).
  apply list_elem_of_In in He. apply bool_decide_eq_true in Heq.
  exists e, i. split_and!; [done| |done].
  rewrite (main_entries_depth e He). simpl in Hi. lia.
Qed.

Lemma main_entries_nonempty : main_entries ≠ [].
Proof. destruct main_entries_first as (f & t & rest & -> & _). done. Qed.

(** * The properties of the specification *)

(** C1.  After a call [create_stub_file(path, title)] that succeeds, the file
    at [path] holds exactly the template with the title put in as it is:
    the title line, a blank line, and the four headers each followed by a
    blank line, with no body. *)
Theorem create_stub_file_content (path title : string) (w w' : World) :
  create_stub_file path title w = (w', Ok tt) →
  read_file w' path = Some (template title) ∧
  template title = "# " +:+ title +:+ "

## Overview

## Usage

## Examples

## Related Types

".
Proof.
  intros (w1 & r1 & Hm & Hc & _ & H)%create_stub_file_inv. split; [|done].
  destruct r1 as [[]|e]; [|by destruct H].
  destruct H as [(e & ? & _)|(k & c & Hr & Hk & Ht & _ & [[_ ->]|?])]; [done| |done].
  unfold read_file, os.stat.
  rewrite (resolve_insert_file w1 w' path (template title) k) by done.
  by rewrite Ht, lookup_insert_eq.
Qed.

Lemma create_stub_file_content_witness :
  read_file (create_stub_file "docs/Int.md" "Int" empty_world).1 "docs/Int.md"
  = Some (template "Int") ∧
  template "Int" = "# " +:+ "Int" +:+ "

## Overview

## Usage

## Examples

## Related Types

".
Proof.
  apply (create_stub_file_content "docs/Int.md" "Int" empty_world).
  apply run_result. vm_compute. reflexivity.
Defined.



(** C3.  A second run of [main] right after a successful one leaves the tree
    as the first run left it, file by file and with no file added; and with
    no injected error the second run does succeed, and changes nothing. *)
Theorem main_idempotent (w w1 : World) :
  main w = (w1, Ok tt) →
  (∀ w2, main w1 = (w2, Ok tt) → tree w2 = tree w1) ∧
  (faults w1 = [] → main w1 = (w1, Ok tt)).
Proof.
  intros (Hc & Hplace)%main_ok_in_place.
  assert (∀ w2, main w1 = (w2, Ok tt) → tree w2 = tree w1) as Hsame.
  { intros w2. rewrite main_run.
    by apply run_in_place; [apply main_entries_ok|apply main_entries_nodup|]. }
  split; [done|]. intros Hq.
  destruct (run_quiet main_entries main_entries w1) as [w2 H2];
    [apply main_entries_ok|apply main_entries_separated|done|done| |].
  { by apply in_place_compat. }
  pose proof (run_touched _ _ _ _ main_entries_ok H2) as (Hc2 & Hq2 & _).
  rewrite <- main_run in H2. rewrite H2. f_equal.
  apply world_eq; [by apply Hsame|done|]. rewrite Hq. auto.
Qed.

Lemma main_idempotent_witness :
  (∀ w2, main (main empty_world).1 = (w2, Ok tt) → tree w2 = tree (main empty_world).1) ∧
  (faults (main empty_world).1 = [] →
   main (main empty_world).1 = ((main empty_world).1, Ok tt)).
Proof.
  apply (main_idempotent empty_world (main empty_world).1).
  apply run_result. vm_compute. reflexivity.
Defined.

(** C4.  When a file sits at the target path, its contents play no part:
    if the call succeeds on a world where the file holds [c1], it succeeds
    on the world where the file holds any other [c2], with the very same
    world as result, in which the file holds the template and nothing of
    what was there (the file is truncated, not merged, not appended to). *)
Theorem create_stub_file_replaces (path title c1 c2 : string) (k : list string)
    (w w' : World) :
  os.resolve w path = inr k → tree w !! k = Some (File c1) →
  create_stub_file path title w = (w', Ok tt) →
  create_stub_file path title (set_tree (<[k := File c2]> (tree w)) w) = (w', Ok tt) ∧
  read_file w' path = Some (template title).
Proof.
  intros Hr Hk Hrun. split; [|by apply (create_stub_file_read path title w)].
  unfold create_stub_file in *.
  apply bind_inv in Hrun as [(w1 & [] & Hm & Hrest)|(e & _ & ?)]; [|done].
  assert (sim k w (set_tree (<[k := File c2]> (tree w)) w)) as Hs.
  { split_and!; [done..|]. split.
    - intros key Hne. simpl. by rewrite lookup_insert_ne.
    - exists c1, c2. simpl. by rewrite lookup_insert_eq. }
  destruct (blind_makedirs k _ _ _ _ _ _ _ Hs Hm) as (w2 & Hm2 & Hs2).
  unfold os.makedirs. rewrite (bind_ok _ _ _ _ _ Hm2).
  pose proof (makedirs_frame _ _ _ _ _ _ Hm) as (Hc1 & _ & Hg).
  assert (os.resolve w1 path = inr k) as Hr1.
  { unfold os.resolve in *. rewrite Hc1. case_bool_decide; [done|].
    eapply namei_dirs_mono; [|done]. intros key. by apply (grows_at_dir (λ _, True)). }
  unfold os.with_open_w in *.
  apply bind_inv in Hrest as [(wo & f & Ho & Hrest)|(e & _ & ?)]; [|done].
  by rewrite (bind_ok _ _ _ _ _ (open_w_same k path w1 w2 wo f Hs2 Hr1 Ho)).
Qed.

Lemma create_stub_file_replaces_witness :
  create_stub_file "docs/Int.md" "Int"
    (set_tree (<[ ["docs"; "Int.md"] := File "other text" ]> (tree stale_world)) stale_world)
  = ((create_stub_file "docs/Int.md" "Int" stale_world).1, Ok tt) ∧
  read_file (create_stub_file "docs/Int.md" "Int" stale_world).1 "docs/Int.md"
  = Some (template "Int").
Proof.
  apply (create_stub_file_replaces "docs/Int.md" "Int" "stale text" "other text"
           ["docs"; "Int.md"] stale_world).
  - vm_compute. reflexivity.
  - vm_compute. reflexivity.
  - apply run_result. vm_compute. reflexivity.
Defined.

(** C5.  The paths derived for two entries at different places of the
    catalog of [main] are different: no two entries share an output path. *)
Theorem catalog_paths_distinct (i j : nat) (x y : nat * string * string) :
  catalog !! i = Some x → catalog !! j = Some y → i ≠ j →
  stub_path (level_dir x.1.1) x.1.2 x.2 ≠ stub_path (level_dir y.1.1) y.1.2 y.2.
Proof.
  intros Hi Hj Hne Heq.
  assert (NoDup ((λ x, stub_path (level_dir x.1.1) x.1.2 x.2) <$> catalog)) as Hnd.
  { apply (bool_decide_unpack (NoDup _)). by vm_compute. }
  apply Hne. eapply NoDup_lookup; [exact Hnd|..].
  - rewrite list_lookup_fmap, Hi. done.
  - rewrite list_lookup_fmap, Hj. simpl. by rewrite Heq.
Qed.

Lemma catalog_paths_distinct_witness :
  stub_path (level_dir 1) "utilities" "Final" ≠ stub_path (level_dir 3) "decorators" "final".
Proof.
  apply (catalog_paths_distinct 18 77 (1, "utilities", "Final") (3, "decorators", "final")).
  - by vm_compute.
  - by vm_compute.
  - lia.
Defined.






(** C8.  With no injected error, from a tree in which nothing stands in the
    way of the entries (an empty target in particular, [empty_target_compat]),
    processing the entries of the catalog in any order succeeds and leaves
    the very world that [main] leaves: the same files with the same
    contents, and the same directories. *)
Theorem order_independent (es' : list entry) (w : World) :
  main_entries ≡ₚ es' → faults w = [] → compat (cwd w) main_entries (tree w) →
  ∃ w', main w = (w', Ok tt) ∧ run es' w = (w', Ok tt).
Proof.
  intros Hperm Hq Hcompat.
  destruct (run_quiet main_entries main_entries w) as [w1 H1];
    [apply main_entries_ok|apply main_entries_separated|done..|].
  destruct (run_quiet main_entries es' w) as [w2 H2];
    [apply main_entries_ok|apply main_entries_separated| |done..|].
  { intros e He. by rewrite Hperm. }
  assert (Forall entry_ok es') as Hok'.
  { rewrite <- Hperm. apply main_entries_ok. }
  assert (NoDup (keys es')) as Hnd'.
  { unfold keys. rewrite <- Hperm. apply main_entries_nodup. }
  pose proof (run_touched _ _ _ _ main_entries_ok H1) as (Hc1 & Hq1 & _).
  pose proof (run_touched _ _ _ _ Hok' H2) as (Hc2 & Hq2 & _).
  exists w1. rewrite main_run. split; [done|]. rewrite H2. f_equal.
  apply world_eq.
  - eapply (run_determined main_entries es' w w);
      [apply main_entries_ok|apply main_entries_nodup|done..| |done|done|done|done].
    intros e. by rewrite Hperm.
  - congruence.
  - rewrite Hq1, Hq2; done.
Qed.

Lemma order_independent_witness :
  ∃ w', main empty_world = (w', Ok tt) ∧ run (reverse main_entries) empty_world = (w', Ok tt).
Proof.
  apply (order_independent (reverse main_entries) empty_world).
  - symmetry. apply reverse_Permutation.
  - reflexivity.
  - apply empty_target_compat; [apply main_entries_ok|apply empty_world_target].
Defined.

(** C9.  The tables hold 7+5+9+8 = 29, 4+5+5+3+5 = 22 and 7+4+8+6+8 = 33
    names, 84 in all, with 84 different files.  A run of [main] that succeeds
    leaves each of these files with its document; and whatever the outcome,
    a file that is new or has new contents is one of the 84, and nothing
    changes outside the directory [PythonTypeGuide] of the working
    directory. *)
Theorem main_writes_84_files (w w' : World) (r : result unit) :
  main w = (w', r) →
  (length <$> (snd <$> level1_types) = [7; 5; 9; 8] ∧
   length (catalog_of 1 level1_types) = 29) ∧
  (length <$> (snd <$> level2_types) = [4; 5; 5; 3; 5] ∧
   length (catalog_of 2 level2_types) = 22) ∧
  (length <$> (snd <$> level3_types) = [7; 4; 8; 6; 8] ∧
   length (catalog_of 3 level3_types) = 33) ∧
  length main_entries = 84 ∧
  NoDup (leaf (cwd w) <$> main_entries) ∧
  (r = Ok tt → ∀ e, e ∈ main_entries →
     tree w' !! leaf (cwd w) e = Some (File (template (e_title e)))) ∧
  (∀ k c, tree w' !! k = Some (File c) → tree w !! k ≠ Some (File c) →
     k ∈ leaf (cwd w) <$> main_entries) ∧
  (∀ k, tree w' !! k ≠ tree w !! k → ∃ rest, k = cwd w ++ "PythonTypeGuide" :: rest).
Proof.
  rewrite main_run. intros Hrun.
  pose proof (run_touched _ _ _ _ main_entries_ok Hrun) as (_ & _ & Ht).
  do 3 (split; [split; vm_compute; reflexivity|]).
  split; [vm_compute; reflexivity|]. split_and!.
  - assert (leaf (cwd w) <$> main_entries = app (cwd w) <$> keys main_entries) as ->.
    { unfold keys. by rewrite <- list_fmap_compose. }
    apply NoDup_fmap_2; [apply _|apply main_entries_nodup].
  - intros -> e He.
    by destruct (run_ok _ _ _ main_entries_ok main_entries_nodup Hrun e He).
  - intros k c Hk Hnew.
    destruct (Ht k) as [E|[(_ & E & _)|(e & s & He & -> & _)]]; [congruence..|].
    by apply list_elem_of_fmap_2.
  - intros k Hk.
    destruct (Ht k) as [E|[(_ & _ & e & He & (i & Hi & ->))|(e & s & He & -> & _)]];
      [by destruct Hk|..]; destruct (main_entries_dirs e He) as (l & c & Hd).
    + rewrite Hd. destruct i as [|i]; [lia|]. exists (take i [l; c]). reflexivity.
    + unfold leaf. rewrite Hd. exists [l; c; e_file e]. reflexivity.
Qed.

Lemma main_writes_84_files_witness :
  length main_entries = 84 ∧
  ∀ e, e ∈ main_entries →
    tree (main empty_world).1 !! leaf [] e = Some (File (template (e_title e))).
Proof.
  destruct (main_writes_84_files empty_world (main empty_world).1 (Ok tt))
    as (_ & _ & _ & Hlen & _ & Hfiles & _).
  - apply run_result. vm_compute. reflexivity.
  - split; [exact Hlen|]. exact (Hfiles eq_refl).
Defined.

(** C10.  A path with no directory part, one whose [dirname] is the empty
    string, makes [create_stub_file] fail in [makedirs]: an [OSError] is
    raised ([FileNotFoundError] when no error is injected) and the tree is
    left as it was, so no file is made. *)
Theorem bare_filename_fails (path title : string) (w : World) :
  posixpath.dirname path = "" →
  ∃ w' e, create_stub_file path title w = (w', Raise e) ∧
          is_OSError e = true ∧ tree w' = tree w ∧
          (faults w = [] → e = FileNotFoundError).
Proof.
  intros Hdir. unfold create_stub_file. rewrite Hdir.
  destruct (makedirs_empty w) as (w' & e & Hm & He & Ht & Hq).
  exists w', e. by rewrite (bind_raise _ _ w w' e Hm).
Qed.

(** The bare file name [Int.md] can be opened for writing in the empty
    world, and [create_stub_file] fails on it all the same. *)
Lemma bare_filename_fails_witness :
  (os.open_w "Int.md" empty_world).2 = Ok ["Int.md"] ∧
  ∃ w' e, create_stub_file "Int.md" "Int" empty_world = (w', Raise e) ∧
          is_OSError e = true ∧ tree w' = tree empty_world ∧
          (faults empty_world = [] → e = FileNotFoundError).
Proof.
  split.
  - vm_compute. reflexivity.
  - apply (bare_filename_fails "Int.md" "Int" empty_world). reflexivity.
Defined.

(** * Further properties of the script *)

(** X1.  Whatever the path, the schedule of injected errors and the outcome,
    a call of [create_stub_file] keeps the working directory and changes
    the tree in two ways only: it makes directories where nothing was, and
    it writes a prefix of the document at the key [path] resolves to, where
    no directory was.  Nothing is removed, no directory is replaced, and no
    other file is touched. *)
Theorem create_stub_file_frame (path title : string) (w w' : World) (r : result unit) :
  create_stub_file path title w = (w', r) →
  cwd w' = cwd w ∧
  ∀ k, tree w' !! k = tree w !! k ∨
       (tree w !! k = None ∧ tree w' !! k = Some Dir) ∨
       (∃ c, os.resolve w' path = inr k ∧ tree w !! k ≠ Some Dir ∧
             tree w' !! k = Some (File c) ∧ str_prefix c (template title)).
Proof.
  intros H. destruct (create_stub_file_inv _ _ _ _ _ H) as (w1 & r1 & Hm & Hc & _ & Hr).
  destruct (makedirs_frame _ _ _ _ _ _ Hm) as (Hc1 & _ & Hg).
  split; [congruence|]. intros k.
  assert (tree w1 !! k = tree w !! k ∨ tree w !! k = None ∧ tree w1 !! k = Some Dir) as Hk1.
  { destruct (Hg k) as [?|(? & ? & _)]; auto. }
  destruct r1 as [[]|e].
  - destruct Hr as [(e & -> & Ht)|(k0 & c & Hres & Hnd & Ht & Hp & _)].
    + rewrite Ht. destruct Hk1; auto.
    + destruct (decide (k = k0)) as [->|Hne].
      * right; right. exists c. split_and!.
        -- by apply (resolve_insert_file w1 w' path c k0).
        -- intros Hd. apply Hnd. by apply (grows_at_dir _ _ _ _ Hg).
        -- rewrite Ht. apply lookup_insert_eq.
        -- done.
      * rewrite Ht, lookup_insert_ne by done. destruct Hk1; auto.
  - destruct Hr as [-> ->]. destruct Hk1; auto.
Qed.

Lemma create_stub_file_frame_witness :
  let w' := (create_stub_file "docs/Int.md" "Int" disk_full_world).1 in
  cwd w' = cwd disk_full_world ∧
  ∀ k, tree w' !! k = tree disk_full_world !! k ∨
       (tree disk_full_world !! k = None ∧ tree w' !! k = Some Dir) ∨
       (∃ c, os.resolve w' "docs/Int.md" = inr k ∧ tree disk_full_world !! k ≠ Some Dir ∧
             tree w' !! k = Some (File c) ∧ str_prefix c (template "Int")).
Proof.
  apply (create_stub_file_frame "docs/Int.md" "Int" disk_full_world _ (Raise OSError)).
  apply run_result. vm_compute. reflexivity.
Defined.

(** X2.  The tree after a successful call on a path of plain names, key by
    key: the key of the file holds the document, the keys of the
    directories of the path are directories, and every other key is as it
    was. *)
Theorem create_stub_file_exact (ds : list string) (f title : string) (w w' : World) :
  plain_path ds → plain f = true →
  create_stub_file (join "/" (ds ++ [f])) title w = (w', Ok tt) →
  cwd w' = cwd w ∧
  ∀ k, (k = cwd w ++ ds ++ [f] ∧ tree w' !! k = Some (File (template title))) ∨
       (chain (cwd w) ds k ∧ tree w' !! k = Some Dir) ∨
       (k ≠ cwd w ++ ds ++ [f] ∧ ¬ chain (cwd w) ds k ∧ tree w' !! k = tree w !! k).
Proof.
  intros Hp Hf H.
  destruct (create_stub_plain_inv ds f title w w' (Ok tt) Hp Hf H)
    as (Hc & _ & t1 & Hg & [(e & ? & _)|(c & Hi & Hleaf & Ht & _ & [[_ ->]|?])]);
    [done| |done].
  split; [done|]. intros k.
  destruct (decide (k = cwd w ++ ds ++ [f])) as [->|Hne].
  { left. split; [done|]. rewrite Ht. apply lookup_insert_eq. }
  right. rewrite Ht, lookup_insert_ne by done.
  destruct (chain_dec (cwd w) ds k) as [Hch|Hnch].
  - left. split; [done|]. destruct Hch as (i & Hi' & ->). apply Hi. lia.
  - right. split_and!; [done..|].
    destruct (Hg k) as [?|(_ & _ & ?)]; done.
Qed.

Lemma create_stub_file_exact_witness :
  let w' := (create_stub_file "docs/api/Int.md" "Int" docs_world).1 in
  cwd w' = cwd docs_world ∧
  ∀ k, (k = cwd docs_world ++ ["docs"; "api"] ++ ["Int.md"] ∧
        tree w' !! k = Some (File (template "Int"))) ∨
       (chain (cwd docs_world) ["docs"; "api"] k ∧ tree w' !! k = Some Dir) ∨
       (k ≠ cwd docs_world ++ ["docs"; "api"] ++ ["Int.md"] ∧
        ¬ chain (cwd docs_world) ["docs"; "api"] k ∧
        tree w' !! k = tree docs_world !! k).
Proof.
  apply (create_stub_file_exact ["docs"; "api"] "Int.md" "Int" docs_world).
  - split; [|done]. by repeat constructor.
  - reflexivity.
  - apply run_result. vm_compute. reflexivity.
Defined.









(** X7.  A path that ends in a separator names no file: the call never
    succeeds on it, whatever the schedule, and all it can have done is make
    directories; no file is created or changed. *)
Theorem create_stub_file_trailing_sep (p title : string) (w w' : World) (r : result unit) :
  create_stub_file (p +:+ "/") title w = (w', r) →
  (∃ e, r = Raise e) ∧
  ∀ k, tree w' !! k = tree w !! k ∨ (tree w !! k = None ∧ tree w' !! k = Some Dir).
Proof.
  intros H. destruct (create_stub_file_inv _ _ _ _ _ H) as (w1 & r1 & Hm & _ & _ & Hr).
  destruct (makedirs_frame _ _ _ _ _ _ Hm) as (_ & _ & Hg).
  assert (∀ k, tree w1 !! k = tree w !! k ∨ (tree w !! k = None ∧ tree w1 !! k = Some Dir))
    as Hg'.
  { intros k. destruct (Hg k) as [?|(? & ? & _)]; auto. }
  destruct r1 as [[]|e].
  - destruct Hr as [(e & -> & Ht)|(k0 & c & Hres & Hnd & _)].
    + split; [eauto|]. by rewrite Ht.
    + by apply resolve_trailing_sep in Hres.
  - destruct Hr as [-> ->]. eauto.
Qed.

Lemma create_stub_file_trailing_sep_witness :
  let w' := (create_stub_file "docs/api/" "Int" empty_world).1 in
  (∃ e, Raise IsADirectoryError = Raise (A := unit) e) ∧
  ∀ k, tree w' !! k = tree empty_world !! k ∨
       (tree empty_world !! k = None ∧ tree w' !! k = Some Dir).
Proof.
  apply (create_stub_file_trailing_sep "docs/api" "Int" empty_world _ (Raise IsADirectoryError)).
  apply run_result. vm_compute. reflexivity.
Defined.





(** X10.  In a sequence of calls that all succeed, the file of a call reads
    back as the document of that call when no later call has the same path:
    of several calls on one path, the last one decides the contents. *)
Theorem run_last_wins (pre post : list entry) (e : entry) (w w' : World) :
  Forall entry_ok (pre ++ e :: post) →
  (∀ e', e' ∈ post → entry_path e' ≠ entry_path e) →
  run (pre ++ e :: post) w = (w', Ok tt) →
  read_file w' (entry_path e) = Some (template (e_title e)).
Proof.
  intros Hok Hlast Hrun.
  destruct (run_last pre post e w w' Hok) as (Hc & Hleaf & Hdirs); [|done|].
  { intros e' Hin Heq. apply (Hlast e' Hin). unfold entry_path. by rewrite Heq. }
  assert (entry_ok e) as [Hp Hf].
  { rewrite Forall_app, Forall_cons in Hok. tauto. }
  unfold read_file, entry_path. rewrite stat_plain_ok.
  - rewrite Hc. unfold leaf in Hleaf. by rewrite Hleaf.
  - by apply plain_path_app.
  - rewrite Hc, length_app. simpl. intros i Hi.
    rewrite take_app_le by lia. apply Hdirs. lia.
Qed.

Lemma run_last_wins_witness :
  read_file
    (run ([mkEntry ["docs"] "Int.md" "Int"] ++ mkEntry ["docs"] "Int.md" "Integer"
            :: [mkEntry ["docs"] "Str.md" "Str"]) empty_world).1
    (entry_path (mkEntry ["docs"] "Int.md" "Integer"))
  = Some (template (e_title (mkEntry ["docs"] "Int.md" "Integer"))).
Proof.
  apply (run_last_wins [mkEntry ["docs"] "Int.md" "Int"] [mkEntry ["docs"] "Str.md" "Str"]
           (mkEntry ["docs"] "Int.md" "Integer") empty_world).
  - repeat constructor; done.
  - intros e' ->%list_elem_of_singleton. vm_compute. discriminate.
  - apply run_result. vm_compute. reflexivity.
Defined.

(** X11.  Without injected errors, a regular file at [PythonTypeGuide], at
    [PythonTypeGuide/level1] or at [PythonTypeGuide/level1/primitive] stops
    [main] at its first call: nothing is written, the world is as it was,
    and the error is [FileExistsError] for the third of them and
    [NotADirectoryError] for the other two. *)
Theorem main_blocked (w : World) (i : nat) (c : string) :
  faults w = [] → 0 < i ≤ 3 →
  tree w !! (cwd w ++ take i first_dirs) = Some (File c) →
  (∀ j, j < i → tree w !! (cwd w ++ take j first_dirs) = Some Dir) →
  main w = (w, Raise (if decide (i = 3) then FileExistsError else NotADirectoryError)).
Proof.
  intros Hq Hi Hfile Hdirs. rewrite main_run.
  destruct main_entries_first as (f & t & rest & -> & Hf).
  assert (plain_path first_dirs) as Hp.
  { split; [|done]. by repeat constructor. }
  unfold run. cbn [for_each]. apply bind_raise.
  unfold entry_path. cbn [e_dirs e_file e_title].
  unfold create_stub_file. rewrite dirname_join_snoc by done.
  apply bind_raise. by apply (makedirs_join_blocked first_dirs w i c).
Qed.

Lemma main_blocked_witness :
  main occupied_world = (occupied_world, Raise NotADirectoryError).
Proof.
  apply (main_blocked occupied_world 1 "notes").
  - reflexivity.
  - lia.
  - reflexivity.
  - intros [|j] Hj; [reflexivity|lia].
Defined.

(** X12.  [main] makes at most eighteen directories: the base directory,
    the three level directories and the fourteen category directories.
    Whatever the outcome, a directory of the final tree was there before or
    is one of them; after a successful run all of them are there. *)
Theorem main_directories (w w' : World) (r : result unit) :
  main w = (w', r) →
  length main_dirs = 18 ∧ NoDup main_dirs ∧
  (∀ k, tree w' !! k = Some Dir →
     tree w !! k = Some Dir ∨ ∃ d, d ∈ main_dirs ∧ k = cwd w ++ d) ∧
  (r = Ok tt → ∀ d, d ∈ main_dirs → tree w' !! (cwd w ++ d) = Some Dir).
Proof.
  rewrite main_run. intros Hrun.
  pose proof (run_touched _ _ _ _ main_entries_ok Hrun) as (_ & _ & Ht).
  split_and!.
  - vm_compute. reflexivity.
  - apply (bool_decide_unpack (NoDup main_dirs)). vm_compute. reflexivity.
  - intros k Hk.
    destruct (Ht k) as [E|[(_ & _ & e & Hin & j & Hj & ->)|(e & s & _ & _ & E & _)]].
    + left. congruence.
    + right. exists (take j (e_dirs e)). split; [|done]. by apply main_chain_dirs.
    + congruence.
  - intros -> d (e & j & Hin & Hj & ->)%main_dirs_chain.
    by apply (run_ok _ _ _ main_entries_ok main_entries_nodup Hrun e Hin).
Qed.

Lemma main_directories_witness :
  length main_dirs = 18 ∧ NoDup main_dirs ∧
  (∀ k, tree (main empty_world).1 !! k = Some Dir →
     tree empty_world !! k = Some Dir ∨ ∃ d, d ∈ main_dirs ∧ k = cwd empty_world ++ d) ∧
  (Ok tt = Ok tt → ∀ d, d ∈ main_dirs →
     tree (main empty_world).1 !! (cwd empty_world ++ d) = Some Dir).
Proof.
  apply (main_directories empty_world (main empty_world).1 (Ok tt)).
  apply run_result. vm_compute. reflexivity.
Defined.

(** X13.  Without injected errors, [main] succeeds exactly when nothing in
    the tree stands in its way: the working directory exists, none of the
    directories of the catalog is a regular file, and none of its files is
    a directory. *)
Theorem main_succeeds_iff (w : World) :
  faults w = [] →
  (∃ w', main w = (w', Ok tt)) ↔ compat (cwd w) main_entries (tree w).
Proof.
  intros Hq. split.
  - intros [w' H]. rewrite main_run in H.
    by apply (run_ok_compat main_entries w w' main_entries_ok main_entries_nonempty).
  - intros Hc.
    destruct (run_quiet main_entries main_entries w) as [w1 H1];
      [apply main_entries_ok|apply main_entries_separated|done..|].
    exists w1. by rewrite main_run.
Qed.

Lemma main_succeeds_iff_witness :
  (∃ w', main empty_world = (w', Ok tt)) ↔
  compat (cwd empty_world) main_entries (tree empty_world).
Proof. apply (main_succeeds_iff empty_world). reflexivity. Defined.

(** X14.  The document names its title: a file that a successful call has
    written reads back as the document of one title only, the title of
    the call. *)
Theorem document_names_title (path title title' : string) (w w' : World) :
  create_stub_file path title w = (w', Ok tt) →
  read_file w' path = Some (template title') → title = title'.
Proof.
  intros H Hread. rewrite (create_stub_file_read path title w w' H) in Hread.
  apply template_inj. congruence.
Qed.

Lemma document_names_title_witness :
  read_file (create_stub_file "docs/Int.md" "Int" empty_world).1 "docs/Int.md"
  = Some (template "Int") ∧ "Int" = "Int".
Proof.
  assert (read_file (create_stub_file "docs/Int.md" "Int" empty_world).1 "docs/Int.md"
          = Some (template "Int")) as Hread by (vm_compute; reflexivity).
  split; [exact Hread|].
  apply (document_names_title "docs/Int.md" "Int" "Int" empty_world
           (create_stub_file "docs/Int.md" "Int" empty_world).1).
  - apply run_result. vm_compute. reflexivity.
  - exact Hread.
Defined.

(** X15.  [main] can be run again after a run that stopped early.  From a
    tree in which nothing stood in the way, and whatever the first run did
    before it ended, a second run without injected errors succeeds and
    leaves the very world that a run without injected errors leaves from
    the start. *)
Theorem main_rerun_completes (w w1 : World) (r : result unit) :
  main w = (w1, r) → compat (cwd w) main_entries (tree w) →
  ∃ w', main (set_faults [] w) = (w', Ok tt) ∧ main (set_faults [] w1) = (w', Ok tt).
Proof.
  rewrite main_run. intros H1 Hc.
  destruct (run_touched _ _ _ _ main_entries_ok H1) as (Hc1 & _ & Ht1).
  destruct (run_quiet main_entries main_entries (set_faults [] w)) as [wa Ha];
    [apply main_entries_ok|apply main_entries_separated|done..|].
  destruct (run_quiet main_entries main_entries (set_faults [] w1)) as [wb Hb];
    [apply main_entries_ok|apply main_entries_separated|done|done| |].
  { cbn [cwd tree set_faults]. rewrite Hc1.
    by apply (compat_touched_all _ _ (tree w)); [apply main_entries_separated|..]. }
  exists wa. rewrite !main_run. split; [done|]. rewrite Hb. f_equal.
  by apply (run_again main_entries w w1 wa wb r main_entries_ok main_entries_nodup).
Qed.

Lemma main_rerun_completes_witness :
  ∃ w', main (set_faults [] disk_full_world) = (w', Ok tt) ∧
        main (set_faults [] (main disk_full_world).1) = (w', Ok tt).
Proof.
  apply (main_rerun_completes disk_full_world (main disk_full_world).1 (Raise OSError)).
  - apply run_result. vm_compute. reflexivity.
  - exact (empty_target_compat main_entries empty_world main_entries_ok empty_world_target).
Defined.

(** X16.  When the directory of the path exists, [makedirs] succeeds and
    changes nothing, whether its [mkdir] fails or not: with [exist_ok] an
    error of [mkdir] is dropped as soon as the directory is there.  The
    outcome of the call is then the same with and without that error. *)
Theorem makedirs_ignores_mkdir_error (path title : string) (w : World) (fs : list bool) :
  os.stat w (posixpath.dirname path) = Some Dir →
  (∀ b, os.makedirs (posixpath.dirname path) true (set_faults (b :: fs) w)
        = (set_faults fs w, Ok tt)) ∧
  create_stub_file path title (set_faults (true :: fs) w)
  = create_stub_file path title (set_faults (false :: fs) w).
Proof.
  intros Hst.
  assert (∀ b, os.makedirs (posixpath.dirname path) true (set_faults (b :: fs) w)
               = (set_faults fs w, Ok tt)) as Hm.
  { intros b. by rewrite (makedirs_there path (set_faults (b :: fs) w)). }
  split; [done|]. unfold create_stub_file.
  by rewrite (bind_ok _ _ _ _ _ (Hm true)), (bind_ok _ _ _ _ _ (Hm false)).
Qed.

Lemma makedirs_ignores_mkdir_error_witness :
  (∀ b, os.makedirs (posixpath.dirname "docs/Int.md") true (set_faults (b :: []) stale_world)
        = (set_faults [] stale_world, Ok tt)) ∧
  create_stub_file "docs/Int.md" "Int" (set_faults (true :: []) stale_world)
  = create_stub_file "docs/Int.md" "Int" (set_faults (false :: []) stale_world).
Proof.
  apply (makedirs_ignores_mkdir_error "docs/Int.md" "Int" stale_world []). reflexivity.
Defined.

(** X17.  The directory that [create_stub_file] makes for the path of a
    stub is the directory of its category: [dirname] undoes the last step
    of the derivation of the path. *)
Theorem stub_path_dirname (level category name : string) :
  plain level = true → plain category = true → sep_free name = true →
  posixpath.dirname (stub_path level category name)
  = "PythonTypeGuide/" +:+ level +:+ "/" +:+ category.
Proof.
  intros Hl Hc Hn. rewrite stub_path_join by done.
  change ["PythonTypeGuide"; level; category; lower name +:+ ".md"]
    with (["PythonTypeGuide"; level; category] ++ [lower name +:+ ".md"]).
  rewrite dirname_join_snoc; [done| |by apply stub_file_name].
  split; [|done]. by repeat constructor.
Qed.

Lemma stub_path_dirname_witness :
  posixpath.dirname (stub_path "level3" "protocols" "SupportsInt")
  = "PythonTypeGuide/" +:+ "level3" +:+ "/" +:+ "protocols".
Proof. apply (stub_path_dirname "level3" "protocols" "SupportsInt"); reflexivity. Defined.




